(** * Vehicle Route Simulator

    A shallow embedding of the route simulator's logic:

    - [utils] ([calculateDistanceKm], [calculateTotalDistance],
      [calculateSpeedKmH]): the Haversine distance, the cumulative distance
      and the instantaneous speed;
    - [components/AnimatedMarker.jsx]: the effect that moves the marker and
      its animation-frame callback [animate];
    - [components/VehicleMap.jsx]: route loading and validation
      ([loadData]), the playback state driven by the interval tick,
      [togglePlay], [resetSimulation] and the speed buttons, the interval
      effect with its cleanup, and the render.

    JavaScript numbers are IEEE-754 binary64 values, taken here as Rocq's
    primitive floats.  The functions of the JavaScript runtime whose results
    ECMAScript leaves to the implementation ([Math.sin], [Math.cos],
    [Math.sqrt], [Math.atan2], and the time and the local time of a [Date])
    are the fields of the class [Runtime]; every theorem holds for every
    instance of it.  What ECMAScript defines exactly is written out:
    [Number.prototype.toFixed], [Math.min], the number a string spells, and
    the conversion to a primitive value with which [new Date] may throw.

    Of the libraries the components call, what decides their behaviour is
    written out as well: Leaflet's [LatLng], which throws on a coordinate
    that is NaN; react-leaflet's [Marker], which sets a new [position] on
    the Leaflet marker before the effect of [AnimatedMarker] runs; and the
    browser's queues of animation-frame callbacks and of intervals. *)

From Stdlib Require Import ZArith Floats String Ascii DecimalString Lia Bool.
From stdpp Require Import base list.

Open Scope string_scope.
Open Scope Z_scope.

(** ** JavaScript values *)

(** What [JSON.parse] produces.  The members of an object are kept in the
    order of the text, duplicates included. *)
#[warnings="-register-all"]
Inductive json : Type :=
| JNull
| JBool (b : bool)
| JNumber (x : float)
| JString (s : string)
| JArray (items : list json)
| JObject (members : list (string * json)).

(** A value that may be [undefined] ([None]). *)
Definition jsval : Type := option json.

(** Exceptions.  [TypeError_undefined i] is the TypeError of reading a
    property of [routeData[i]] when that element is [undefined];
    [TypeError_null] the TypeError of reading a property of [null];
    [TypeError message] any other TypeError, with the message V8 gives
    it. *)
Inductive exn : Type :=
| TypeError_undefined (index : Z)
| TypeError_null
| TypeError (message : string)
| Error (message : string).

(** The outcome of evaluating a piece of code that may throw. *)
Inductive completion (A : Type) : Type :=
| Normal (a : A)
| Throw (e : exn).
Arguments Normal {A} a.
Arguments Throw {A} e.

Definition bind {A B} (c : completion A) (k : A -> completion B) : completion B :=
  match c with
  | Normal a => k a
  | Throw e => Throw e
  end.

Notation "x <- c ;; k" := (bind c (fun x => k))
  (at level 100, c at next level, right associativity).

(** [JSON.parse] keeps the last of several members with one name. *)
Fixpoint lookupMember (name : string) (members : list (string * json)) : jsval :=
  match members with
  | [] => None
  | (k, v) :: rest =>
      match lookupMember name rest with
      | Some w => Some w
      | None => if String.eqb k name then Some v else None
      end
  end.

(** [v.name] for the names the program reads ([latitude], [longitude],
    [timestamp]), which no built-in prototype defines: reading them from
    [null] throws, from an object looks the member up, and from any other
    value gives [undefined]. *)
Definition getMember (v : json) (name : string) : completion jsval :=
  match v with
  | JNull => Throw TypeError_null
  | JObject members => Normal (lookupMember name members)
  | _ => Normal None
  end.

(** [a[i]] for an array and an integer index: [undefined] out of range. *)
Definition element {A} (a : list A) (i : Z) : option A :=
  if i <? 0 then None else a !! Z.to_nat i.

(** [a.slice(start, end)] for integer arguments: a negative argument counts
    from the end, both are clamped to the array, and an empty range gives
    the empty array. *)
Definition slice {A} (a : list A) (start final : Z) : list A :=
  let len := Z.of_nat (length a) in
  let k := if start <? 0 then Z.max (len + start) 0 else Z.min start len in
  let final := if final <? 0 then Z.max (len + final) 0 else Z.min final len in
  take (Z.to_nat (final - k)) (drop (Z.to_nat k) a).

(** [a.map(callback)], with a callback that may throw. *)
Fixpoint mapArray {A B} (callback : A -> completion B) (a : list A)
    : completion (list B) :=
  match a with
  | [] => Normal []
  | x :: rest =>
      y <- callback x ;;
      ys <- mapArray callback rest ;;
      Normal (y :: ys)
  end.

(** The truth value of [v] in a condition: [undefined], [null], [false],
    zeros, NaN and the empty string are false. *)
Definition truthy (v : jsval) : bool :=
  match v with
  | None | Some JNull => false
  | Some (JBool b) => b
  | Some (JNumber x) => negb (PrimFloat.is_nan x || PrimFloat.is_zero x)
  | Some (JString s) => negb (String.eqb s "")
  | Some (JArray _) | Some (JObject _) => true
  end.

(** Whether the conversion of [v] to a primitive value throws, as
    [new Date(v)] performs it.  A primitive value converts to itself.  An
    object made by [JSON.parse] inherits [valueOf], which returns the object
    itself, and [toString], which returns a string, unless it has a member
    named [toString]: a member is never a function, so neither method then
    gives a primitive value and the conversion throws a TypeError.  An
    array is converted by [join], which converts every element other than
    [null] to a string, an object or an array among them in this same
    way. *)
Fixpoint toPrimitiveThrows (v : json) : bool :=
  match v with
  | JObject members =>
      match lookupMember "toString" members with
      | Some _ => true
      | None => false
      end
  | JArray items => existsb toPrimitiveThrows items
  | _ => false
  end.

(** The TypeError of a conversion that finds no primitive value. *)
Definition conversionError : exn :=
  TypeError "Cannot convert object to primitive value".

(** ** Number formatting: [Number.prototype.toFixed] *)

(** The decimal digits of a non-negative integer. *)
Definition decimal (n : Z) : string :=
  NilZero.string_of_uint (N.to_uint (Z.to_N n)).

Fixpoint zeros (k : nat) : string :=
  match k with
  | O => EmptyString
  | S k' => String "0" (zeros k')
  end.

(** The digits of [n] as [toFixed] lays them out: padded on the left with
    zeros to [f + 1] digits, with a point before the last [f]. *)
Definition fixedDigits (n : Z) (f : nat) : string :=
  let m := decimal n in
  if Nat.eqb f 0 then m
  else
    let k := String.length m in
    let m := if (k <=? f)%nat then zeros (f + 1 - k) ++ m else m in
    let k := String.length m in
    substring 0 (k - f) m ++ "." ++ substring (k - f) f m.

(** The integer [toFixed] prints for [x = m * 2^e > 0]: the [n] for which
    [n / 10^f - x] is closest to zero, the larger one of two. *)
Definition roundScaled (m : positive) (e : Z) (f : nat) : Z :=
  let scaled := Z.pos m * 10 ^ Z.of_nat f in
  if 0 <=? e then scaled * 2 ^ e
  else (2 * scaled + 2 ^ (- e)) / 2 ^ (1 - e).

Definition numDigits (x : Z) : Z := Z.of_nat (String.length (decimal x)).

(** [Number::toString] for [x = m * 2^e >= 10^21]: a [k]-digit integer [s]
    with [s * 10^(n-k)] in the interval of reals that round to [x], the one
    closest to [x], when there is one. *)
Definition candidate (m : positive) (e k n : Z) : option Z :=
  let x := Z.pos m * 2 ^ e in
  let lo := x - (if Z.pos m =? 2 ^ 52 then 2 ^ (e - 2) else 2 ^ (e - 1)) in
  let hi := x + 2 ^ (e - 1) in
  let closed := Z.even (Z.pos m) in
  let p := 10 ^ (n - k) in
  let smin := if closed then (lo + p - 1) / p else lo / p + 1 in
  let smax := if closed then hi / p else (hi + p - 1) / p - 1 in
  let smin := Z.max smin (10 ^ (k - 1)) in
  let smax := Z.min smax (10 ^ k - 1) in
  if smin <=? smax then Some (Z.max smin (Z.min smax ((2 * x + p) / (2 * p))))
  else None.

(** The least [k] with a candidate, from [k] upwards: the digits [s] and the
    exponent [n].  Seventeen digits always identify a binary64 value. *)
Fixpoint shortest (fuel : nat) (m : positive) (e k : Z) : Z * Z :=
  let d := numDigits (Z.pos m * 2 ^ e) in
  match candidate m e k d with
  | Some s => (s, d)
  | None =>
      match candidate m e k (d + 1) with
      | Some s => (s, d + 1)
      | None =>
          match fuel with
          | O => ((2 * (Z.pos m * 2 ^ e) + 10 ^ (d - k)) / (2 * 10 ^ (d - k)), d)
          | S fuel' => shortest fuel' m e (k + 1)
          end
      end
  end.

(** The digits [s] written as [d.ddd] followed by [e+] and [n - 1]. *)
Definition exponentForm (s n : Z) : string :=
  let ds := decimal s in
  let k := String.length ds in
  (if (k =? 1)%nat then ds
   else substring 0 1 ds ++ "." ++ substring 1 (k - 1) ds)
  ++ "e+" ++ decimal (n - 1).

(** [x.toFixed(f)], for [0 <= f <= 100]. *)
Definition toFixed (x : float) (f : nat) : string :=
  match Prim2SF x with
  | S754_nan => "NaN"
  | S754_infinity false => "Infinity"
  | S754_infinity true => "-Infinity"
  | S754_zero _ => fixedDigits 0 f
  | S754_finite s m e =>
      let sign := if s then "-" else "" in
      let body :=
        if 10 ^ 21 <=? Z.pos m * 2 ^ e
        then let '(d, n) := shortest 16 m e 1 in exponentForm d n
        else fixedDigits (roundScaled m e f) f in
      sign ++ body
  end.

(** [Math.min(a, b)]: NaN if either is, and [-0] below [+0]. *)
Definition Math_min (a b : float) : float :=
  if PrimFloat.is_nan a || PrimFloat.is_nan b then nan
  else if (a <? b)%float then a
  else if (b <? a)%float then b
  else if PrimFloat.get_sign a then a else b.

(** [Number.isFinite(x)]: neither NaN nor an infinity. *)
Definition isFiniteNumber (x : float) : bool :=
  match Prim2SF x with
  | S754_zero _ | S754_finite _ _ _ => true
  | _ => false
  end.

(** [Math.PI]. *)
Definition Math_PI : float := 0x1.921fb54442d18p+1%float.

(** ** The number a string spells: [Number(s)] *)

(** The decimal digits at the front of [s]: their value after [acc], how
    many they are after [count], and the rest of [s]. *)
Fixpoint readDigits (s : string) (acc count : Z) : Z * Z * string :=
  match s with
  | String c rest =>
      let n := Z.of_nat (nat_of_ascii c) in
      if (48 <=? n) && (n <=? 57)
      then readDigits rest (10 * acc + (n - 48)) (count + 1)
      else (acc, count, s)
  | EmptyString => (acc, count, s)
  end.

(** The binary64 value nearest to [n * 10^e], the even one of two, with the
    sign given: the rounding of the integer for [0 <= e], and of the
    quotient by [10^(-e)] otherwise. *)
Definition nearest (negative : bool) (n e : Z) : float :=
  SF2Prim
    match n with
    | Z.pos _ =>
        if 0 <=? e
        then binary_normalize prec emax (cond_Zopp negative (n * 10 ^ e)) 0 false
        else
          let '(q, e', l) := SFdiv_core_binary prec emax n 0 (10 ^ (- e)) 0 in
          binary_round_aux prec emax negative q e' l
    | _ => S754_zero negative
    end.

(** An exponent part, [e] or [E] with an optional sign and digits, or
    nothing: its value.  [None] when [s] is neither. *)
Definition readExponent (s : string) : option Z :=
  match s with
  | EmptyString => Some 0
  | String c rest =>
      if Ascii.eqb c "e" || Ascii.eqb c "E" then
        let '(negative, rest) :=
          match rest with
          | String "-" rest' => (true, rest')
          | String "+" rest' => (false, rest')
          | _ => (false, rest)
          end in
        match readDigits rest 0 0 with
        | (x, count, EmptyString) =>
            if 0 <? count then Some (if negative then - x else x) else None
        | _ => None
        end
      else None
  end.

(** An unsigned decimal literal: digits, an optional point and digits, an
    optional exponent, with a digit before or after the point. *)
Definition readDecimal (negative : bool) (s : string) : float :=
  let '(whole, wholeCount, rest) := readDigits s 0 0 in
  let '(n, fractionCount, rest) :=
    match rest with
    | String "." rest' => readDigits rest' whole 0
    | _ => (whole, 0, rest)
    end in
  if 0 <? wholeCount + fractionCount then
    match readExponent rest with
    | Some x => nearest negative n (x - fractionCount)
    | None => nan
    end
  else nan.

(** [Number(s)] for a string without white space and without a prefix
    [0x], [0o] or [0b]: the empty string is [0], [Infinity] may carry a
    sign, a decimal literal is rounded to the nearest binary64 value, and
    any other string is NaN. *)
Definition StringToNumber (s : string) : float :=
  if String.eqb s "" then 0%float
  else
    let '(negative, body) :=
      match s with
      | String "-" rest => (true, rest)
      | String "+" rest => (false, rest)
      | _ => (false, s)
      end in
    if String.eqb body "Infinity"
    then (if negative then neg_infinity else infinity)
    else readDecimal negative body.

(** The numeric value of a number or of a string. *)
Definition numericValue (v : json) : option float :=
  match v with
  | JNumber x => Some x
  | JString s => Some (StringToNumber s)
  | _ => None
  end.
(** ** The runtime *)

(** The functions ECMAScript leaves to the implementation.  For a value
    [v] whose conversion to a primitive value returns,
    [Date_getTime v] is [new Date(v).getTime()], milliseconds since the
    epoch or NaN, and [Date_toLocaleTimeString v] is
    [new Date(v).toLocaleTimeString()]. *)
Class Runtime : Type := {
  Math_sin : float -> float;
  Math_cos : float -> float;
  Math_sqrt : float -> float;
  Math_atan2 : float -> float -> float;
  Date_getTime : jsval -> float;
  Date_toLocaleTimeString : jsval -> string
}.

(** [new Date(v)]: the conversion of [v] to a primitive value may throw. *)
Definition newDate (v : jsval) : completion jsval :=
  match v with
  | Some j => if toPrimitiveThrows j then Throw conversionError else Normal v
  | None => Normal v
  end.

(** ** utils *)

(** A route point as the utilities read it: an object with a number for
    [latitude] and for [longitude] (what [loadData] accepts), and whatever
    [timestamp] holds. *)
Record RoutePoint : Type := {
  latitude : float;
  longitude : float;
  timestamp : jsval
}.

Module utils.
Section WithRuntime.
Context {runtime : Runtime}.
Local Open Scope float_scope.

Definition toRad (degrees : float) : float :=
  degrees * (Math_PI / 180).

Definition calculateDistanceKm (lat1 lon1 lat2 lon2 : float) : float :=
  let R := 6371 in
  let dLat := toRad (lat2 - lat1) in
  let dLon := toRad (lon2 - lon1) in
  let a :=
    Math_sin (dLat / 2) * Math_sin (dLat / 2) +
    Math_cos (toRad lat1) * Math_cos (toRad lat2) *
    Math_sin (dLon / 2) * Math_sin (dLon / 2) in
  let c := 2 * Math_atan2 (Math_sqrt a) (Math_sqrt (1 - a)) in
  R * c.

(** [routeData[i]] as the operand of a property read: the read throws when
    the element is missing. *)
Definition pointAt (routeData : list RoutePoint) (i : Z) : completion RoutePoint :=
  match element routeData i with
  | Some p => Normal p
  | None => Throw (TypeError_undefined i)
  end.

(** The [for] loop of [calculateTotalDistance], from [i] on; [n] counts the
    iterations left (the test [i <= currentIndex] holds for
    [i = 1 .. currentIndex]).  The arguments of the call are evaluated from
    left to right: [routeData[i-1]] is read before [routeData[i]]. *)
Fixpoint sumLoop (n : nat) (routeData : list RoutePoint) (i : Z)
    (totalDistance : float) : completion float :=
  match n with
  | O => Normal totalDistance
  | S n' =>
      prev <- pointAt routeData (i - 1)%Z ;;
      curr <- pointAt routeData i ;;
      sumLoop n' routeData (i + 1)%Z
        (totalDistance +
         calculateDistanceKm (latitude prev) (longitude prev)
                             (latitude curr) (longitude curr))
  end.

(** [routeData] is [None] when the argument is [null] or [undefined].  The
    result is the number [0] or the string of [toFixed(2)]. *)
Definition calculateTotalDistance (routeData : option (list RoutePoint))
    (currentIndex : Z) : completion json :=
  match routeData with
  | None => Normal (JNumber 0)
  | Some routeData =>
      if (currentIndex =? 0)%Z then Normal (JNumber 0)
      else
        totalDistance <- sumLoop (Z.to_nat currentIndex) routeData 1%Z 0 ;;
        Normal (JString (toFixed totalDistance 2))
  end.

(** The elapsed time of [calculateSpeedKmH], in hours.  The date of the
    current point is built first; either [new Date] may throw. *)
Definition timeDeltaHours (prevPoint currPoint : RoutePoint) : completion float :=
  currDate <- newDate (timestamp currPoint) ;;
  prevDate <- newDate (timestamp prevPoint) ;;
  let timeDeltaMs := Date_getTime currDate - Date_getTime prevDate in
  Normal (timeDeltaMs / (1000 * 60 * 60)).

Definition calculateSpeedKmH (currentIndex : Z) (routeData : list RoutePoint)
    : completion string :=
  if (currentIndex =? 0)%Z || (Z.of_nat (length routeData) <=? 1)%Z
  then Normal "0.00"%string
  else
    match element routeData currentIndex, element routeData (currentIndex - 1)%Z with
    | Some currPoint, Some prevPoint =>
        let distanceKm :=
          calculateDistanceKm (latitude prevPoint) (longitude prevPoint)
                              (latitude currPoint) (longitude currPoint) in
        timeDeltaHours <- timeDeltaHours prevPoint currPoint ;;
        if timeDeltaHours <=? 0 then Normal "N/A"%string
        else
          let speed := distanceKm / timeDeltaHours in
          Normal (toFixed speed 2)
    | _, _ => Normal "0.00"%string
    end.

(** *** The specification's reading of the two sums

    [distanceKm a b] is the distance between two route points;
    [cumulativeDistanceKm route uptoIndex] adds, from [0] and in route order,
    the distances of the first [uptoIndex] pairs of consecutive points. *)

Definition distanceKm (a b : RoutePoint) : float :=
  calculateDistanceKm (latitude a) (longitude a) (latitude b) (longitude b).

Definition legs (route : list RoutePoint) : list float :=
  zip_with distanceKm route (tail route).

Definition cumulativeDistanceKm (route : list RoutePoint) (uptoIndex : nat) : float :=
  foldl PrimFloat.add 0 (take uptoIndex (legs route)).

(** *** The specification's reading of the elapsed time

    A timestamp makes a date when [new Date] returns one for it, be it an
    invalid date, whose time is NaN; the elapsed time between two dates,
    converted to hours, is the difference of their times in milliseconds
    over the 3600000 milliseconds of an hour. *)

Definition makesDate (v : jsval) : Prop := newDate v = Normal v.

Definition elapsedHours (earlier later : jsval) : float :=
  (Date_getTime later - Date_getTime earlier) / 3600000.

(** *** The haversine of [calculateDistanceKm]

    Its constant [a], the square of half the chord between the two points
    on the unit sphere: a real number between 0 and 1, which the function
    computes in binary64 and passes, with [1 - a], to two square roots. *)
Definition haversine (lat1 lon1 lat2 lon2 : float) : float :=
  let dLat := toRad (lat2 - lat1) in
  let dLon := toRad (lon2 - lon1) in
  Math_sin (dLat / 2) * Math_sin (dLat / 2) +
  Math_cos (toRad lat1) * Math_cos (toRad lat2) *
  Math_sin (dLon / 2) * Math_sin (dLon / 2).

End WithRuntime.
End utils.
(** ** components/AnimatedMarker.jsx *)

Module AnimatedMarker.

(** Leaflet's [LatLng]. *)
Record LatLng : Type := { lat : float; lng : float }.

(** The [position] prop, an array [[lat, lng]]. *)
Definition position : Type := (float * float)%type.

(** What Leaflet throws at the component: the Error
    ['Invalid LatLng object: (lat, lng)'] of a location with a coordinate
    that is NaN, given by its two numbers, and the TypeError of a marker on
    the map whose location is [null]. *)
Inductive failure : Type :=
| InvalidLatLng (lat lng : float)
| NoLatLng.

(** The outcome of a call into Leaflet. *)
Inductive attempt (A : Type) : Type :=
| Returns (a : A)
| Fails (e : failure).
Arguments Returns {A} a.
Arguments Fails {A} e.

(** Neither coordinate is NaN. *)
Definition isValid (p : position) : bool :=
  negb (PrimFloat.is_nan p.1 || PrimFloat.is_nan p.2).

(** The location with the coordinates of [p]. *)
Definition LatLng_of (p : position) : LatLng := {| lat := p.1; lng := p.2 |}.

(** [L.latLng(position)], Leaflet's [new LatLng(lat, lng)]: it throws when
    a coordinate is NaN. *)
Definition L_latLng (p : position) : attempt LatLng :=
  if isValid p then Returns (LatLng_of p)
  else Fails (InvalidLatLng p.1 p.2).

(** Two locations with equal coordinates ([-0] equals [+0]). *)
Definition sameLatLng (l1 l2 : LatLng) : bool :=
  (lat l1 =? lat l2)%float && (lng l1 =? lng l2)%float.

(** Both coordinates are finite. *)
Definition isFiniteLatLng (l : LatLng) : bool :=
  isFiniteNumber (lat l) && isFiniteNumber (lng l).

(** The closure [animate] of one run of the effect: the variables it
    captures. *)
Record Animation : Type := {
  startLatLng : LatLng;
  endLatLng : LatLng;
  startTime : float;
  target : position;
  duration : float
}.

(** The component's props and refs, the marker, and the browser's queue of
    animation-frame callbacks.
    - [rendered]: the [position] prop of the last render;
    - [marker]: [markerRef.current], a Leaflet marker given by its location
      ([getLatLng] reads it, [setLatLng] writes it), or [None] while the ref
      is [null];
    - [lastPosition], [frameRef]: the [current] of the two refs ([frameRef]
      holds a request id; ids start at 1, so a held id is truthy);
    - [requests]: the callbacks requested and not yet run or cancelled;
    - [nextId]: the id the next [requestAnimationFrame] returns;
    - [panned]: the argument of the last [map.panTo];
    - [hasCleanup]: whether the last run of the effect returned its cleanup
      function. *)
Record Component : Type := {
  rendered : option position;
  marker : option LatLng;
  lastPosition : option position;
  frameRef : option nat;
  requests : list (nat * Animation);
  nextId : nat;
  panned : option LatLng;
  hasCleanup : bool
}.

Definition set_rendered (p : option position) (c : Component) : Component :=
  {| rendered := p; marker := marker c; lastPosition := lastPosition c;
     frameRef := frameRef c; requests := requests c; nextId := nextId c;
     panned := panned c; hasCleanup := hasCleanup c |}.

(** [marker.setLatLng(latLng)] with a [LatLng]: Leaflet takes it as it
    is. *)
Definition setLatLng (l : LatLng) (c : Component) : Component :=
  {| rendered := rendered c; marker := Some l; lastPosition := lastPosition c;
     frameRef := frameRef c; requests := requests c; nextId := nextId c;
     panned := panned c; hasCleanup := hasCleanup c |}.

(** [marker.setLatLng([lat, lng])] with an array: Leaflet builds the
    [LatLng] first, and the marker keeps its location when that throws. *)
Definition setLatLngArray (p : position) (c : Component) : attempt Component :=
  match L_latLng p with
  | Returns l => Returns (setLatLng l c)
  | Fails e => Fails e
  end.

Definition set_lastPosition (p : position) (c : Component) : Component :=
  {| rendered := rendered c; marker := marker c; lastPosition := Some p;
     frameRef := frameRef c; requests := requests c; nextId := nextId c;
     panned := panned c; hasCleanup := hasCleanup c |}.

Definition set_hasCleanup (b : bool) (c : Component) : Component :=
  {| rendered := rendered c; marker := marker c; lastPosition := lastPosition c;
     frameRef := frameRef c; requests := requests c; nextId := nextId c;
     panned := panned c; hasCleanup := b |}.

Definition panTo (l : LatLng) (c : Component) : Component :=
  {| rendered := rendered c; marker := marker c; lastPosition := lastPosition c;
     frameRef := frameRef c; requests := requests c; nextId := nextId c;
     panned := Some l; hasCleanup := hasCleanup c |}.

(** [frameRef.current = requestAnimationFrame(animate)]. *)
Definition requestFrame (a : Animation) (c : Component) : Component :=
  {| rendered := rendered c; marker := marker c; lastPosition := lastPosition c;
     frameRef := Some (nextId c);
     requests := requests c ++ [(nextId c, a)];
     nextId := S (nextId c); panned := panned c;
     hasCleanup := hasCleanup c |}.

(** [if (frameRef.current) cancelAnimationFrame(frameRef.current)]. *)
Definition cancelFrame (c : Component) : Component :=
  match frameRef c with
  | Some id =>
      {| rendered := rendered c; marker := marker c;
         lastPosition := lastPosition c; frameRef := frameRef c;
         requests := filter (fun r => r.1 <> id) (requests c);
         nextId := nextId c; panned := panned c; hasCleanup := hasCleanup c |}
  | None => c
  end.

Definition progress (a : Animation) (currentTime : float) : float :=
  let elapsedTime := (currentTime - startTime a)%float in
  Math_min 1 (elapsedTime / duration a)%float.

(** The array [[lat, lng]] that [animate] sets first: the linear
    interpolation. *)
Definition interpolated (a : Animation) (currentTime : float) : position :=
  let progress := progress a currentTime in
  ((lat (startLatLng a) +
    (lat (endLatLng a) - lat (startLatLng a)) * progress)%float,
   (lng (startLatLng a) +
    (lng (endLatLng a) - lng (startLatLng a)) * progress)%float).

(** One call of [animate]: it throws in its first [setLatLng] when the
    interpolation has a coordinate that is NaN, before anything is
    changed. *)
Definition animate (a : Animation) (currentTime : float) (c : Component)
    : attempt Component :=
  let progress := progress a currentTime in
  match setLatLngArray (interpolated a currentTime) c with
  | Fails e => Fails e
  | Returns c =>
      if (progress <? 1)%float then Returns (requestFrame a c)
      else Returns (set_lastPosition (target a) (setLatLng (endLatLng a) c))
  end.

(** One run of the effect, at [performance.now() = now]. *)
Definition effect (position : option position) (duration now : float)
    (c : Component) : attempt Component :=
  match marker c, position with
  | Some startLatLng, Some pos =>
      match L_latLng pos with
      | Fails e => Fails e
      | Returns endLatLng =>
          match lastPosition c with
          | None =>
              Returns (set_hasCleanup false
                         (set_lastPosition pos (setLatLng endLatLng c)))
          | Some _ =>
              let a := {| startLatLng := startLatLng; endLatLng := endLatLng;
                          startTime := now; target := pos;
                          duration := duration |} in
              Returns (set_hasCleanup true
                         (panTo endLatLng (requestFrame a (cancelFrame c))))
          end
      end
  | _, _ => Returns (set_hasCleanup false c)
  end.

(** The cleanup of the effect's last run, if it returned one. *)
Definition cleanup (c : Component) : Component :=
  if hasCleanup c then cancelFrame c else c.

(** react-leaflet's [Marker], rendered with a [position]: at the first
    render it creates the Leaflet marker there and puts it on the map. *)
Definition Marker_create (position : option position) : attempt LatLng :=
  match position with
  | Some p => L_latLng p
  | None => Fails NoLatLng
  end.

(** And at a later render with another [position] array, it sets the new
    position on the marker. *)
Definition Marker_update (position : option position) (c : Component)
    : attempt Component :=
  match position with
  | Some p => setLatLngArray p (set_rendered position c)
  | None => Fails NoLatLng
  end.

(** The component after its first render, with its marker attached:
    [useRef(null)], [useRef(position)], [useRef(null)]. *)
Definition mount (position : option position) : attempt Component :=
  match Marker_create position with
  | Fails e => Fails e
  | Returns l =>
      Returns {| rendered := position; marker := Some l;
                 lastPosition := position; frameRef := None; requests := [];
                 nextId := 1%nat; panned := None; hasCleanup := false |}
  end.

(** The first render and the first run of the effect. *)
Definition mounted (position : option position) (duration now : float)
    : attempt Component :=
  match mount position with
  | Fails e => Fails e
  | Returns c => effect position duration now c
  end.

(** A render with a new [position] array: the cleanup of the effect's last
    run; then the effect of [Marker], a child, which moves the marker; then
    the effect. *)
Definition update (position : option position) (duration now : float)
    (c : Component) : attempt Component :=
  match Marker_update position (cleanup c) with
  | Fails e => Fails e
  | Returns c => effect position duration now c
  end.

(** A render with the same [position] array and another [duration]: the
    cleanup and the effect; [Marker] has nothing to set. *)
Definition rerun (duration now : float) (c : Component) : attempt Component :=
  effect (rendered c) duration now (cleanup c).

(** The browser runs the requested callbacks at time [currentTime].  An
    exception thrown by a callback is reported, and the component stays as
    it was when the callback was called. *)
Definition frame (currentTime : float) (c : Component) : Component :=
  foldl (fun c r =>
           match animate r.2 currentTime c with
           | Returns c' => c'
           | Fails _ => c
           end)
    {| rendered := rendered c; marker := marker c;
       lastPosition := lastPosition c; frameRef := frameRef c;
       requests := []; nextId := nextId c; panned := panned c;
       hasCleanup := hasCleanup c |}
    (requests c).

(** What happens to a mounted component. *)
Inductive action : Type :=
| Update (position : option position) (duration now : float)
| Rerun (duration now : float)
| Frame (currentTime : float).

Definition act (c : Component) (a : action) : attempt Component :=
  match a with
  | Update position duration now => update position duration now c
  | Rerun duration now => rerun duration now c
  | Frame currentTime => Returns (frame currentTime c)
  end.

(** The actions in turn, up to the first that throws. *)
Fixpoint run (actions : list action) (c : Component) : attempt Component :=
  match actions with
  | [] => Returns c
  | a :: rest =>
      match act c a with
      | Returns c' => run rest c'
      | Fails e => Fails e
      end
  end.

(** The component's life: the first render and effect, then the actions. *)
Definition life (position : option position) (duration now : float)
    (actions : list action) : attempt Component :=
  match mounted position duration now with
  | Fails e => Fails e
  | Returns c => run actions c
  end.

(** An action that gives the component a position Leaflet accepts, or
    none. *)
Definition accepts (a : action) : bool :=
  match a with
  | Update (Some p) _ _ => isValid p
  | Update None _ _ => false
  | _ => true
  end.

(** The frames at the given times, in turn. *)
Definition frames (times : list float) (c : Component) : Component :=
  foldl (fun c t => frame t c) c times.

(** [elapsedTime / duration], before the clamp of [progress]. *)
Definition rawProgress (a : Animation) (currentTime : float) : float :=
  ((currentTime - startTime a) / duration a)%float.

(** At most one callback is requested; [frameRef] holds its id and the
    effect has returned its cleanup. *)
Definition onePending (c : Component) : Prop :=
  match requests c with
  | [] => True
  | [(id, _)] => frameRef c = Some id /\ hasCleanup c = true
  | _ => False
  end.

(** An animation from a location to itself. *)
Definition onTheSpot (a : Animation) (l : LatLng) : Prop :=
  startLatLng a = l /\ endLatLng a = l.

(** What every mounted component keeps: the marker is attached, a last
    position is recorded, the rendered position is one Leaflet accepts, and
    at most one frame is requested. *)
Definition mountedWell (c : Component) : Prop :=
  is_Some (marker c) /\ is_Some (lastPosition c) /\
  (exists p, rendered c = Some p /\ isValid p = true) /\
  onePending c.

End AnimatedMarker.

(** ** components/VehicleMap.jsx *)

Module VehicleMap.

(** The component's state. *)
Record State : Type := {
  routeData : list json;
  currentIndex : Z;
  isPlaying : bool;
  error : option string;
  isLoading : bool;
  speed : float;
  showInfo : bool
}.

(** The [useState] initial values. *)
Definition initialState : State :=
  {| routeData := []; currentIndex := 0; isPlaying := false; error := None;
     isLoading := true; speed := 1%float; showInfo := true |}.

Definition setRouteData (d : list json) (st : State) : State :=
  {| routeData := d; currentIndex := currentIndex st; isPlaying := isPlaying st;
     error := error st; isLoading := isLoading st; speed := speed st;
     showInfo := showInfo st |}.

Definition setCurrentIndex (i : Z) (st : State) : State :=
  {| routeData := routeData st; currentIndex := i; isPlaying := isPlaying st;
     error := error st; isLoading := isLoading st; speed := speed st;
     showInfo := showInfo st |}.

Definition setIsPlaying (b : bool) (st : State) : State :=
  {| routeData := routeData st; currentIndex := currentIndex st; isPlaying := b;
     error := error st; isLoading := isLoading st; speed := speed st;
     showInfo := showInfo st |}.

Definition setError (e : option string) (st : State) : State :=
  {| routeData := routeData st; currentIndex := currentIndex st;
     isPlaying := isPlaying st; error := e; isLoading := isLoading st;
     speed := speed st; showInfo := showInfo st |}.

Definition setIsLoading (b : bool) (st : State) : State :=
  {| routeData := routeData st; currentIndex := currentIndex st;
     isPlaying := isPlaying st; error := error st; isLoading := b;
     speed := speed st; showInfo := showInfo st |}.

Definition setSpeed (s : float) (st : State) : State :=
  {| routeData := routeData st; currentIndex := currentIndex st;
     isPlaying := isPlaying st; error := error st; isLoading := isLoading st;
     speed := s; showInfo := showInfo st |}.

Definition setShowInfo (b : bool) (st : State) : State :=
  {| routeData := routeData st; currentIndex := currentIndex st;
     isPlaying := isPlaying st; error := error st; isLoading := isLoading st;
     speed := speed st; showInfo := b |}.

(** *** Route loading *)

(** What [fetch('/dummy-route.json')] and [response.json()] did:
    [Rejected e] when [fetch] rejects with [e]; otherwise the response's
    [ok] and [status], and the value [response.json()] resolves to or the
    error it rejects with. *)
Inductive fetched : Type :=
| Rejected (e : exn)
| Response (ok : bool) (status : N) (body : completion json).

(** [error.message]; the wording of the two TypeErrors is V8's. *)
Definition message (e : exn) : string :=
  match e with
  | Error m => m
  | TypeError m => m
  | TypeError_null => "Cannot read properties of null (reading 'latitude')"
  | TypeError_undefined _ => "Cannot read properties of undefined (reading 'latitude')"
  end.

(** The callback of [data.every]. *)
Definition validPoint (point : json) : completion bool :=
  lat <- getMember point "latitude" ;;
  match lat with
  | Some (JNumber lat) =>
      lon <- getMember point "longitude" ;;
      match lon with
      | Some (JNumber lon) =>
          Normal (negb (PrimFloat.is_nan lat) &&
                  negb (PrimFloat.is_nan lon) &&
                  (-90 <=? lat)%float && (lat <=? 90)%float &&
                  (-180 <=? lon)%float && (lon <=? 180)%float)
      | _ => Normal false
      end
  | _ => Normal false
  end.

(** [Array.prototype.every]: stops at the first element the callback
    rejects, and lets the callback's exception through. *)
Fixpoint every (callback : json -> completion bool) (data : list json)
    : completion bool :=
  match data with
  | [] => Normal true
  | point :: rest =>
      ok <- callback point ;;
      if ok then every callback rest else Normal false
  end.

(** The [try] block of [loadData], after the two state updates: the array
    passed to [setRouteData], or the exception thrown. *)
Definition tryLoad (r : fetched) : completion (list json) :=
  match r with
  | Rejected e => Throw e
  | Response ok status body =>
      if negb ok
      then Throw (Error ("HTTP error! status: " ++ decimal (Z.of_N status)))
      else
        data <- body ;;
        match data with
        | JArray data =>
            validData <- every validPoint data ;;
            if negb validData then Throw (Error "Invalid coordinates in route data")
            else Normal data
        | _ => Throw (Error "Route data must be an array")
        end
  end.

Definition loadData (r : fetched) (st : State) : State :=
  let st := setError None (setIsLoading true st) in
  let st :=
    match tryLoad r with
    | Normal data => setRouteData data st
    | Throw e => setError (Some (message e)) st
    end in
  setIsLoading false st.

(** The route point the utilities read from an accepted element. *)
Definition toRoutePoint (point : json) : option RoutePoint :=
  match point with
  | JObject members =>
      match lookupMember "latitude" members, lookupMember "longitude" members with
      | Some (JNumber lat), Some (JNumber lon) =>
          Some {| latitude := lat; longitude := lon;
                  timestamp := lookupMember "timestamp" members |}
      | _, _ => None
      end
  | _ => None
  end.

(** The route as the utilities read it. *)
Definition routePoints (routeData : list json) : list RoutePoint :=
  omap toRoutePoint routeData.

(** The two figures of the status panel, rendered when the current
    position exists: [calculateSpeedKmH(currentIndex, routeData)] and
    [calculateTotalDistance(routeData, currentIndex)].  The route is what
    [loadData] accepted: every element is an object with a number for
    [latitude] and for [longitude], which [routePoints] reads. *)
Definition displayedSpeed {runtime : Runtime} (st : State) : completion string :=
  utils.calculateSpeedKmH (currentIndex st) (routePoints (routeData st)).

Definition displayedDistance {runtime : Runtime} (st : State) : completion json :=
  utils.calculateTotalDistance (Some (routePoints (routeData st))) (currentIndex st).

(** *** Playback *)

Definition togglePlay (st : State) : State :=
  setIsPlaying (negb (isPlaying st)) st.

Definition resetSimulation (st : State) : State :=
  setCurrentIndex 0 (setIsPlaying false st).

(** The delay of the interval the effect installs, if it installs one. *)
Definition intervalDelay (st : State) : option float :=
  if isPlaying st && (0 <? Z.of_nat (length (routeData st)))
  then Some (2000 / speed st)%float
  else None.

(** The interval's callback: [setCurrentIndex] with its updater. *)
Definition intervalCallback (st : State) : State :=
  let prevIndex := currentIndex st in
  if Z.of_nat (length (routeData st)) - 1 <=? prevIndex
  then setCurrentIndex prevIndex (setIsPlaying false st)
  else setCurrentIndex (prevIndex + 1) st.

(** A timer tick: the callback runs when an interval is installed. *)
Definition tick (st : State) : State :=
  match intervalDelay st with
  | Some _ => intervalCallback st
  | None => st
  end.

(** What can happen to the mounted component after loading: a click on
    the play/pause button, on reset, on a speed button, on the info button,
    or a tick of the timer. *)
Inductive event : Type :=
| TogglePlay
| ResetSimulation
| SetSpeed (s : float)
| ToggleInfo
| Tick.

Definition step (st : State) (ev : event) : State :=
  match ev with
  | TogglePlay => togglePlay st
  | ResetSimulation => resetSimulation st
  | SetSpeed s => setSpeed s st
  | ToggleInfo => setShowInfo (negb (showInfo st)) st
  | Tick => tick st
  end.

Definition run (events : list event) (st : State) : State :=
  foldl step st events.

(** *** The specification's reading of a valid route *)

(** [v] is a number, not NaN, between [lo] and [hi]. *)
Definition numberIn (lo hi : float) (v : jsval) : Prop :=
  exists x, v = Some (JNumber x) /\ PrimFloat.is_nan x = false /\
            (lo <=? x)%float = true /\ (x <=? hi)%float = true.

(** The element has a numeric, non-NaN latitude in [-90, 90] and longitude
    in [-180, 180]. *)
Definition hasCoordinates (point : json) : Prop :=
  exists members, point = JObject members /\
    numberIn (-90) 90 (lookupMember "latitude" members) /\
    numberIn (-180) 180 (lookupMember "longitude" members).

(** The element has a timestamp that is a string the runtime parses to a
    date. *)
Definition hasTimestamp {runtime : Runtime} (point : json) : Prop :=
  exists members s, point = JObject members /\
    lookupMember "timestamp" members = Some (JString s) /\
    PrimFloat.is_nan (Date_getTime (Some (JString s))) = false.

(** The fetch gave an ok response whose body is the array [data], and
    every element of [data] has valid coordinates. *)
Definition accepted (r : fetched) (data : list json) : Prop :=
  (exists status, r = Response true status (Normal (JArray data))) /\
  Forall hasCoordinates data.

(** A route point with valid coordinates and no timestamp. *)
Definition pointWithoutTimestamp : json :=
  JObject [("latitude", JNumber 0); ("longitude", JNumber 0)].

(** *** Rendering *)

(** [routeData[currentIndex]]. *)
Definition currentPosition (st : State) : jsval :=
  element (routeData st) (currentIndex st).

(** The callback of [routeData.map]: [[p.latitude, p.longitude]]. *)
Definition coordinatePair (p : json) : completion (jsval * jsval) :=
  lat <- getMember p "latitude" ;;
  lon <- getMember p "longitude" ;;
  Normal (lat, lon).

Definition fullRouteCoords (st : State) : completion (list (jsval * jsval)) :=
  mapArray coordinatePair (routeData st).

Definition traveledRouteCoords (st : State) : completion (list (jsval * jsval)) :=
  fullRouteCoords <- fullRouteCoords st ;;
  Normal (slice fullRouteCoords 0 (currentIndex st + 1)).

(** [x.toFixed(digits)] for the value [x] of the expression [expr]: a
    number has the method, [undefined] and [null] have no properties, and
    no other value made by [JSON.parse] has a function for [toFixed]. *)
Definition callToFixed (expr : string) (x : jsval) (digits : nat)
    : completion string :=
  match x with
  | Some (JNumber x) => Normal (toFixed x digits)
  | None =>
      Throw (TypeError "Cannot read properties of undefined (reading 'toFixed')")
  | Some JNull =>
      Throw (TypeError "Cannot read properties of null (reading 'toFixed')")
  | Some _ => Throw (TypeError (expr ++ ".toFixed is not a function"))
  end.

(** What the map screen computes from the state, in the order of the
    markup: when the route is not empty, the two polylines and the
    [position] of the marker; the numbers of [Point i/n]; the location,
    the speed, the distance and the time of the status panel.  (Left out
    are the header's date, which reads the clock, and the labels that
    depend on [showInfo], [isPlaying] and [speed]: none of them can
    throw.) *)
Record figures : Type := {
  overlay : option (list (jsval * jsval) * list (jsval * jsval) * (jsval * jsval));
  pointOf : Z * Z;
  locationText : string * string;
  speedText : string;
  distanceText : json;
  timeText : string
}.

(** The four screens the component returns: the spinner, the error box
    with its message, the notice that there is no route, and the map with
    its figures. *)
Inductive view : Type :=
| LoadingView
| ErrorView (message : string)
| NoRouteView
| MapView (shown : figures).

(** The coordinates of a pair are numbers in range. *)
Definition inRange (c : jsval * jsval) : Prop :=
  numberIn (-90) 90 c.1 /\ numberIn (-180) 180 c.2.

(** The expressions of the map screen, for a current position that is
    there. *)
Definition mapFigures {runtime : Runtime} (st : State) (currentPosition : json)
    (fullRouteCoords traveledRouteCoords : list (jsval * jsval))
    : completion figures :=
  overlay <-
    (if 0 <? Z.of_nat (length (routeData st)) then
       lat <- getMember currentPosition "latitude" ;;
       lon <- getMember currentPosition "longitude" ;;
       Normal (Some (fullRouteCoords, traveledRouteCoords, (lat, lon)))
     else Normal None) ;;
  lat <- getMember currentPosition "latitude" ;;
  latText <- callToFixed "currentPosition.latitude" lat 6 ;;
  lon <- getMember currentPosition "longitude" ;;
  lonText <- callToFixed "currentPosition.longitude" lon 6 ;;
  speed <- displayedSpeed st ;;
  distance <- displayedDistance st ;;
  timestamp <- getMember currentPosition "timestamp" ;;
  date <- newDate timestamp ;;
  Normal {| overlay := overlay;
            pointOf := (currentIndex st + 1, Z.of_nat (length (routeData st)));
            locationText := (latText, lonText);
            speedText := speed;
            distanceText := distance;
            timeText := Date_toLocaleTimeString date |}.

(** The last two returns of the render: the notice when
    [currentPosition] is false (missing), the map otherwise. *)
Definition routeView {runtime : Runtime} (st : State) (currentPosition : jsval)
    (fullRouteCoords traveledRouteCoords : list (jsval * jsval))
    : completion view :=
  match currentPosition with
  | Some p =>
      if truthy currentPosition then
        shown <- mapFigures st p fullRouteCoords traveledRouteCoords ;;
        Normal (MapView shown)
      else Normal NoRouteView
  | None => Normal NoRouteView
  end.

(** The render: the three constants are computed first, then the
    conditions are tested in order.  [error] is a string or [null], and
    of the strings the empty one is false. *)
Definition render {runtime : Runtime} (st : State) : completion view :=
  let currentPosition := currentPosition st in
  fullRouteCoords <- fullRouteCoords st ;;
  traveledRouteCoords <- traveledRouteCoords st ;;
  if isLoading st then Normal LoadingView
  else
    match error st with
    | Some message =>
        if truthy (Some (JString message)) then Normal (ErrorView message)
        else routeView st currentPosition fullRouteCoords traveledRouteCoords
    | None => routeView st currentPosition fullRouteCoords traveledRouteCoords
    end.

(** The timestamps that the map screen makes dates of: that of the current
    point and, past the first point, that of the point before it. *)
Definition datesAt (route : list RoutePoint) (index : Z) : Prop :=
  (forall p, element route index = Some p -> utils.makesDate (timestamp p)) /\
  (index <> 0 ->
   forall p, element route (index - 1) = Some p -> utils.makesDate (timestamp p)).

(** *** The interval effect and the browser's timers *)

(** An interval the browser holds: the [routeData.length] its callback
    closed over, and its delay. *)
Record Interval : Type := { closedLength : Z; delay : float }.

(** The mounted component: its state, [intervalRef.current] (ids start at
    1, so a held id is truthy), the intervals that are set and not cleared,
    the id the next [setInterval] returns, and the dependencies the effect
    last ran with. *)
Record Mounted : Type := {
  state : State;
  intervalRef : option nat;
  intervals : list (nat * Interval);
  nextInterval : nat;
  dependencies : bool * Z * float
}.

(** [[isPlaying, routeData.length, speed]]. *)
Definition dependenciesOf (st : State) : bool * Z * float :=
  (isPlaying st, Z.of_nat (length (routeData st)), speed st).

(** Two dependency arrays that [Object.is] finds equal, item by item. *)
Definition sameDependencies (d1 d2 : bool * Z * float) : bool :=
  Bool.eqb d1.1.1 d2.1.1 && (d1.1.2 =? d2.1.2) && PrimFloat.Leibniz.eqb d1.2 d2.2.

Definition set_state (st : State) (m : Mounted) : Mounted :=
  {| state := st; intervalRef := intervalRef m; intervals := intervals m;
     nextInterval := nextInterval m; dependencies := dependencies m |}.

Definition set_dependencies (d : bool * Z * float) (m : Mounted) : Mounted :=
  {| state := state m; intervalRef := intervalRef m; intervals := intervals m;
     nextInterval := nextInterval m; dependencies := d |}.

(** The effect's cleanup:
    [if (intervalRef.current) clearInterval(intervalRef.current)]. *)
Definition clearHeldInterval (m : Mounted) : Mounted :=
  match intervalRef m with
  | Some id =>
      {| state := state m; intervalRef := intervalRef m;
         intervals := filter (fun i => i.1 <> id) (intervals m);
         nextInterval := nextInterval m; dependencies := dependencies m |}
  | None => m
  end.

(** The effect's body: [intervalRef.current = setInterval(...)] when the
    playback is on and there is a route. *)
Definition startInterval (m : Mounted) : Mounted :=
  match intervalDelay (state m) with
  | Some delay =>
      let routeDataLength := Z.of_nat (length (routeData (state m))) in
      {| state := state m; intervalRef := Some (nextInterval m);
         intervals :=
           intervals m ++
           [(nextInterval m, {| closedLength := routeDataLength; delay := delay |})];
         nextInterval := S (nextInterval m); dependencies := dependencies m |}
  | None => m
  end.

(** A render with the state [st] and the effects after it: when a
    dependency has changed, the cleanup of the last run and the body. *)
Definition commit (st : State) (m : Mounted) : Mounted :=
  let m := set_state st m in
  if sameDependencies (dependenciesOf st) (dependencies m) then m
  else set_dependencies (dependenciesOf st) (startInterval (clearHeldInterval m)).

(** The callback of an interval, with the [routeData.length] it closed
    over; the updater reads the index of the latest state. *)
Definition closedCallback (routeDataLength : Z) (st : State) : State :=
  let prevIndex := currentIndex st in
  if routeDataLength - 1 <=? prevIndex
  then setCurrentIndex prevIndex (setIsPlaying false st)
  else setCurrentIndex (prevIndex + 1) st.

(** The buttons of the map screen, and the event a click on each is. *)
Inductive button : Type :=
| PlayPause
| Reset
| Speed (s : float)
| Info.

Definition click (b : button) : event :=
  match b with
  | PlayPause => TogglePlay
  | Reset => ResetSimulation
  | Speed s => SetSpeed s
  | Info => ToggleInfo
  end.

(** What the browser brings to the mounted component: a click, or the
    firing of the timer with a given id. *)
Inductive occurrence : Type :=
| Click (b : button)
| Fires (id : nat).

Definition intervalOf (id : nat) (m : Mounted) : option Interval :=
  snd <$> find (fun i => Nat.eqb i.1 id) (intervals m).

Definition react (m : Mounted) (o : occurrence) : Mounted :=
  match o with
  | Click b => commit (step (state m) (click b)) m
  | Fires id =>
      match intervalOf id m with
      | Some i => commit (closedCallback (closedLength i) (state m)) m
      | None => m
      end
  end.

(** The component after its first render and the first run of the effect:
    the playback is off and no interval is set. *)
Definition firstRender : Mounted :=
  {| state := initialState; intervalRef := None; intervals := [];
     nextInterval := 1%nat; dependencies := dependenciesOf initialState |}.

(** And after the fetch has settled and [loadData] has set its states.
    The renders on the way find the playback off, as this one does: the
    effect, when it runs, sets no interval. *)
Definition loaded (r : fetched) : Mounted :=
  commit (loadData r initialState) firstRender.

(** What the mounted component keeps: the effect has run with the
    dependencies of the state; the playback being off or the route empty,
    no interval is set; otherwise one is, [intervalRef] holds its id, its
    delay is that of the state's speed, and its callback has closed over
    the length of the state's route. *)
Definition settled (m : Mounted) : Prop :=
  dependencies m = dependenciesOf (state m) /\
  match intervals m with
  | [] => intervalDelay (state m) = None
  | [(id, i)] =>
      intervalRef m = Some id /\
      intervalDelay (state m) = Some (delay i) /\
      closedLength i = Z.of_nat (length (routeData (state m)))
  | _ => False
  end.

(** The events that can move the playback: all but the speed buttons and
    the info button. *)
Definition affectsPlayback (ev : event) : bool :=
  match ev with
  | SetSpeed _ | ToggleInfo => false
  | TogglePlay | ResetSimulation | Tick => true
  end.

(** Two states with one route, one index and one playing flag. *)
Definition samePlayback (st1 st2 : State) : Prop :=
  routeData st1 = routeData st2 /\
  currentIndex st1 = currentIndex st2 /\
  isPlaying st1 = isPlaying st2.

End VehicleMap.
(** ** A runtime to run the examples

    An executable [Runtime], used to evaluate the model on concrete routes
    and to exhibit inputs that meet the theorems' hypotheses; the theorems
    themselves are proved for an arbitrary runtime.  [sin] and [cos] are Taylor polynomials (for arguments in
    [-pi, pi], where [calculateDistanceKm] uses them), [atan2] is the
    arctangent series after three halvings of the argument, [sqrt] is the
    IEEE-754 square root, [getTime] reads the date-time format of
    ECMAScript, [YYYY-MM-DDTHH:mm:ss] with an optional [.sss], in UTC, and
    [toLocaleTimeString] writes the time of day as [HH:mm:ss], in UTC. *)

Module sample.

(** [x - x^3/3! + x^5/5! - ...]: [term] is the current term, [k] the first
    of the two factors that the next term divides by. *)
Fixpoint series (n : nat) (x2 term k acc : float) : float :=
  match n with
  | O => acc
  | S n' =>
      let term' := (- term * x2 / (k * (k + 1)))%float in
      series n' x2 term' (k + 2)%float (acc + term')%float
  end.

Definition sin (x : float) : float := series 14 (x * x)%float x 2 x.

Definition cos (x : float) : float := series 14 (x * x)%float 1 1 1.

(** [t - t^3/3 + t^5/5 - ...]. *)
Fixpoint atanSeries (n : nat) (t2 power k acc : float) : float :=
  match n with
  | O => acc
  | S n' =>
      let power' := (- power * t2)%float in
      atanSeries n' t2 power' (k + 2)%float (acc + power' / k)%float
  end.

Definition halve (t : float) : float :=
  (t / (1 + PrimFloat.sqrt (1 + t * t)))%float.

(** The arctangent, for [-1 <= t <= 1]. *)
Definition atanUnit (t : float) : float :=
  let u := halve (halve (halve t)) in
  (8 * atanSeries 14 (u * u) u 3 u)%float.

Definition atan (t : float) : float :=
  if (1 <? t)%float then (Math_PI / 2 - atanUnit (1 / t))%float
  else if (t <? -1)%float then (- (Math_PI / 2) - atanUnit (1 / t))%float
  else atanUnit t.

Definition atan2 (y x : float) : float :=
  if PrimFloat.is_nan y || PrimFloat.is_nan x then nan
  else if (0 <? x)%float then atan (y / x)
  else if (x <? 0)%float then
    (if PrimFloat.get_sign y then atan (y / x) - Math_PI
     else atan (y / x) + Math_PI)%float
  else if (0 <? y)%float then (Math_PI / 2)%float
  else if (y <? 0)%float then (- (Math_PI / 2))%float
  else if PrimFloat.get_sign x then
    (if PrimFloat.get_sign y then - Math_PI else Math_PI)%float
  else y.

(** An integer of magnitude below [2^62] as a float (exact below [2^53]). *)
Definition floatOfZ (z : Z) : float :=
  if z <? 0 then (- PrimFloat.of_uint63 (Uint63.of_Z (- z)))%float
  else PrimFloat.of_uint63 (Uint63.of_Z z).

Definition digitValue (c : ascii) : option Z :=
  let n := Z.of_nat (nat_of_ascii c) in
  if (48 <=? n) && (n <=? 57) then Some (n - 48) else None.

(** The number written by the [len] digits of [s] from [start] on. *)
Fixpoint digitsAt (s : string) (start len : nat) (acc : Z) : option Z :=
  match len with
  | O => Some acc
  | S len' =>
      match String.get start s with
      | Some c =>
          match digitValue c with
          | Some d => digitsAt s (S start) len' (10 * acc + d)
          | None => None
          end
      | None => None
      end
  end.

Definition charAt (s : string) (i : nat) (c : ascii) : bool :=
  match String.get i s with
  | Some c' => Ascii.eqb c c'
  | None => false
  end.

(** Days from 1970-01-01 to a day of the proleptic Gregorian calendar. *)
Definition daysFromCivil (y m d : Z) : Z :=
  let y := if m <=? 2 then y - 1 else y in
  let era := y / 400 in
  let yoe := y - era * 400 in
  let doy := (153 * (if 2 <? m then m - 3 else m + 9) + 2) / 5 + d - 1 in
  let doe := yoe * 365 + yoe / 4 - yoe / 100 + doy in
  era * 146097 + doe - 719468.

(** Milliseconds since the epoch of a date-time string. *)
Definition parseDate (s : string) : option Z :=
  y ← digitsAt s 0 4 0;
  mo ← digitsAt s 5 2 0;
  d ← digitsAt s 8 2 0;
  h ← digitsAt s 11 2 0;
  mi ← digitsAt s 14 2 0;
  se ← digitsAt s 17 2 0;
  ms ← (if charAt s 19 "." then digitsAt s 20 3 0 else Some 0);
  let n := String.length s in
  let tail := if charAt s 19 "." then 23%nat else 19%nat in
  if charAt s 4 "-" && charAt s 7 "-" && charAt s 10 "T" &&
     charAt s 13 ":" && charAt s 16 ":" &&
     ((n =? tail)%nat || ((n =? S tail)%nat && charAt s tail "Z")) &&
     (1 <=? mo) && (mo <=? 12) && (1 <=? d) && (d <=? 31) &&
     (h <=? 23) && (mi <=? 59) && (se <=? 59)
  then Some ((((daysFromCivil y mo d * 24 + h) * 60 + mi) * 60 + se) * 1000 + ms)
  else None.

(** The time value of [new Date(v)] for a string in the format above, a
    number (truncated, none beyond 8.64e15 ms), [null] or a boolean; none
    for [undefined] and for any other value. *)
Definition timeValue (v : jsval) : option Z :=
  match v with
  | Some (JString s) => parseDate s
  | Some (JNumber x) =>
      match Prim2SF x with
      | S754_zero _ => Some 0
      | S754_finite sg m e =>
          let t := if 0 <=? e then Z.pos m * 2 ^ e else Z.pos m / 2 ^ (- e) in
          if 8640000000000000 <? t then None
          else Some (if sg then - t else t)
      | _ => None
      end
  | Some JNull => Some 0
  | Some (JBool b) => Some (if b then 1 else 0)
  | _ => None
  end.

(** [new Date(v).getTime()]: the time value, or NaN. *)
Definition getTime (v : jsval) : float :=
  match timeValue v with
  | Some t => floatOfZ t
  | None => nan
  end.

Definition twoDigits (n : Z) : string :=
  if n <? 10 then "0" ++ decimal n else decimal n.

(** [new Date(v).toLocaleTimeString()]. *)
Definition toLocaleTimeString (v : jsval) : string :=
  match timeValue v with
  | Some t =>
      let s := (t / 1000) mod 86400 in
      twoDigits (s / 3600) ++ ":" ++ twoDigits (s / 60 mod 60) ++ ":" ++
      twoDigits (s mod 60)
  | None => "Invalid Date"
  end.

Definition runtime : Runtime := {|
  Math_sin := sin;
  Math_cos := cos;
  Math_sqrt := PrimFloat.sqrt;
  Math_atan2 := atan2;
  Date_getTime := getTime;
  Date_toLocaleTimeString := toLocaleTimeString
|}.

Definition point (lat lon : float) (time : string) : RoutePoint :=
  {| latitude := lat; longitude := lon; timestamp := Some (JString time) |}.

(** The route of the specification's example, two points 0.01 degrees of
    longitude and one minute apart, and a third point with the time of the
    second. *)
Definition route : list RoutePoint :=
  [ point 0 0 "2024-01-01T10:00:00Z";
    point 0 0x1.47ae147ae147bp-7 "2024-01-01T10:01:00Z";
    point 0 0x1.47ae147ae147bp-6 "2024-01-01T10:01:00Z" ].

(** The same three points as [JSON.parse] gives them. *)
Definition routeJson : list json :=
  [ JObject [("latitude", JNumber 0); ("longitude", JNumber 0);
             ("timestamp", JString "2024-01-01T10:00:00Z")];
    JObject [("latitude", JNumber 0); ("longitude", JNumber 0x1.47ae147ae147bp-7);
             ("timestamp", JString "2024-01-01T10:01:00Z")];
    JObject [("latitude", JNumber 0); ("longitude", JNumber 0x1.47ae147ae147bp-6);
             ("timestamp", JString "2024-01-01T10:01:00Z")] ].

(** A transition of the marker from 0.7 to 0.1 degrees: at [progress = 1] the
    interpolation gives 0.09999999999999998, and the marker ends at 0.1. *)
Definition drifting : AnimatedMarker.Animation :=
  {| AnimatedMarker.startLatLng :=
       {| AnimatedMarker.lat := 0x1.6666666666666p-1;
          AnimatedMarker.lng := 0x1.6666666666666p-1 |};
     AnimatedMarker.endLatLng :=
       {| AnimatedMarker.lat := 0x1.999999999999ap-4;
          AnimatedMarker.lng := 0x1.999999999999ap-4 |};
     AnimatedMarker.startTime := 0;
     AnimatedMarker.target := (0x1.999999999999ap-4, 0x1.999999999999ap-4)%float;
     AnimatedMarker.duration := 2000 |}.

(** A component that holds the sample transition: its marker at 0.7
    degrees, the callback requested. *)
Definition inTransit : AnimatedMarker.Component :=
  {| AnimatedMarker.rendered := Some (AnimatedMarker.target drifting);
     AnimatedMarker.marker := Some (AnimatedMarker.startLatLng drifting);
     AnimatedMarker.lastPosition :=
       Some (0x1.6666666666666p-1, 0x1.6666666666666p-1)%float;
     AnimatedMarker.frameRef := Some 1%nat;
     AnimatedMarker.requests := [(1%nat, drifting)];
     AnimatedMarker.nextId := 2%nat;
     AnimatedMarker.panned := Some (AnimatedMarker.endLatLng drifting);
     AnimatedMarker.hasCleanup := true |}.

(** The component mounted at 0.7 degrees at time 0, after the first run
    of the effect. *)
Definition atRest : AnimatedMarker.Component :=
  {| AnimatedMarker.rendered :=
       Some (0x1.6666666666666p-1, 0x1.6666666666666p-1)%float;
     AnimatedMarker.marker := Some (AnimatedMarker.startLatLng drifting);
     AnimatedMarker.lastPosition :=
       Some (0x1.6666666666666p-1, 0x1.6666666666666p-1)%float;
     AnimatedMarker.frameRef := Some 1%nat;
     AnimatedMarker.requests :=
       [(1%nat,
         {| AnimatedMarker.startLatLng := AnimatedMarker.startLatLng drifting;
            AnimatedMarker.endLatLng := AnimatedMarker.startLatLng drifting;
            AnimatedMarker.startTime := 0;
            AnimatedMarker.target :=
              (0x1.6666666666666p-1, 0x1.6666666666666p-1)%float;
            AnimatedMarker.duration := 2000 |})];
     AnimatedMarker.nextId := 2%nat;
     AnimatedMarker.panned := Some (AnimatedMarker.startLatLng drifting);
     AnimatedMarker.hasCleanup := true |}.

(** Two points at the ends of a diameter of the Earth: (-84.5, -179) and
    (84.5, 1). *)
Definition antipodes : list RoutePoint :=
  [ point (-84.5) (-179) "2024-01-01T10:00:00Z";
    point 84.5 1 "2024-01-02T10:00:00Z" ].

Definition antipodesJson : list json :=
  [ JObject [("latitude", JNumber (-84.5)); ("longitude", JNumber (-179));
             ("timestamp", JString "2024-01-01T10:00:00Z")];
    JObject [("latitude", JNumber 84.5); ("longitude", JNumber 1);
             ("timestamp", JString "2024-01-02T10:00:00Z")] ].

(** A timestamp that is an object with a member named [toString], and a
    route whose second point carries it. *)
Definition unconvertible : jsval := Some (JObject [("toString", JNumber 0)]).

Definition unconvertibleRoute : list RoutePoint :=
  [ point 0 0 "2024-01-01T10:00:00Z";
    {| latitude := 0; longitude := 0x1.47ae147ae147bp-7;
       timestamp := unconvertible |} ].

Definition unconvertibleJson : list json :=
  [ JObject [("latitude", JNumber 0); ("longitude", JNumber 0);
             ("timestamp", JString "2024-01-01T10:00:00Z")];
    JObject [("latitude", JNumber 0); ("longitude", JNumber 0x1.47ae147ae147bp-7);
             ("timestamp", JObject [("toString", JNumber 0)])] ].

End sample.

(** ** Auxiliary notions for the proofs *)

(** No character of [s] is a slash. *)
Fixpoint noSlash (s : string) : bool :=
  match s with
  | EmptyString => true
  | String c s' => negb (Ascii.eqb c "/") && noSlash s'
  end.

(** * Proofs *)

(** Case analysis on the integer comparison the goal tests. *)
Ltac case_compare :=
  match goal with
  | |- context [(?a <=? ?b)%Z] => destruct (Z.leb_spec a b)
  | |- context [(?a <? ?b)%Z] => destruct (Z.ltb_spec a b)
  | |- context [(?a =? ?b)%Z] => destruct (Z.eqb_spec a b)
  end.

(** ** Number formatting *)

Lemma noSlash_app a b : noSlash (a ++ b) = noSlash a && noSlash b.
Proof.
  induction a as [|c a IH]; simpl; [reflexivity|].
  rewrite IH. apply andb_assoc.
Qed.

Lemma noSlash_substring s : forall n m,
  noSlash s = true -> noSlash (substring n m s) = true.
Proof.
  induction s as [|c s IH]; intros n m H.
  - destruct n, m; reflexivity.
  - simpl in H. apply andb_true_iff in H as [Hc Hs].
    destruct n as [|n]; simpl.
    + destruct m as [|m]; simpl; [reflexivity|].
      rewrite Hc. simpl. apply IH. exact Hs.
    + apply IH. exact Hs.
Qed.

Lemma noSlash_zeros k : noSlash (zeros k) = true.
Proof. induction k; simpl; auto. Qed.

Lemma noSlash_uint d : noSlash (NilEmpty.string_of_uint d) = true.
Proof. induction d; simpl; auto. Qed.

Lemma noSlash_decimal n : noSlash (decimal n) = true.
Proof.
  unfold decimal, NilZero.string_of_uint.
  destruct (N.to_uint (Z.to_N n)) eqn:E; try reflexivity;
    rewrite <- E; apply noSlash_uint.
Qed.

Lemma noSlash_fixedDigits n f : noSlash (fixedDigits n f) = true.
Proof.
  unfold fixedDigits.
  destruct (Nat.eqb f 0); [apply noSlash_decimal|].
  set (m := if (_ <=? _)%nat then _ else _).
  assert (Hm : noSlash m = true).
  { subst m. destruct (_ <=? _)%nat; [|apply noSlash_decimal].
    rewrite noSlash_app, noSlash_zeros, noSlash_decimal. reflexivity. }
  rewrite !noSlash_app, !noSlash_substring by exact Hm. reflexivity.
Qed.

Lemma noSlash_exponentForm s n : noSlash (exponentForm s n) = true.
Proof.
  unfold exponentForm.
  rewrite !noSlash_app, noSlash_decimal.
  destruct (_ =? 1)%nat.
  - rewrite noSlash_decimal. reflexivity.
  - rewrite !noSlash_app, !noSlash_substring by apply noSlash_decimal.
    reflexivity.
Qed.

Lemma noSlash_toFixed x f : noSlash (toFixed x f) = true.
Proof.
  unfold toFixed.
  destruct (Prim2SF x) as [s|s| |s m e]; try reflexivity.
  - apply noSlash_fixedDigits.
  - destruct s; reflexivity.
  - rewrite noSlash_app.
    assert (noSlash (if s then "-" else "") = true) as ->
      by (destruct s; reflexivity).
    destruct (10 ^ 21 <=? Z.pos m * 2 ^ e).
    + destruct (shortest 16 m e 1) as [d n]. apply noSlash_exponentForm.
    + apply noSlash_fixedDigits.
Qed.

(** [toFixed] never produces the sentinel of [calculateSpeedKmH]. *)
Lemma toFixed_not_sentinel x f : toFixed x f <> "N/A".
Proof.
  intros H. pose proof (noSlash_toFixed x f) as Hn.
  rewrite H in Hn. discriminate Hn.
Qed.

(** [roundScaled] is the rounding of [toFixed]: for [x = m * 2^e] with
    [e < 0], the integer [n] it gives is within one half of [x * 10^f]
    (both sides multiplied by [2 * 2^(-e)]), the upper one of two. *)
Lemma roundScaled_nearest (m : positive) (e : Z) (f : nat) :
  e < 0 ->
  let n := roundScaled m e f in
  let scaled := Z.pos m * 10 ^ Z.of_nat f in
  2 * n * 2 ^ (- e) - 2 ^ (- e) <= 2 * scaled < 2 * n * 2 ^ (- e) + 2 ^ (- e).
Proof.
  intros He. cbn zeta. unfold roundScaled.
  destruct (Z.leb_spec 0 e) as [|_]; [lia|].
  replace (1 - e) with (Z.succ (- e)) by lia.
  rewrite Z.pow_succ_r by lia.
  set (d := 2 ^ (- e)). set (s := Z.pos m * 10 ^ Z.of_nat f).
  assert (0 < d) by (apply Z.pow_pos_nonneg; lia).
  pose proof (Z.div_mod (2 * s + d) (2 * d) ltac:(lia)) as Hdiv.
  pose proof (Z.mod_pos_bound (2 * s + d) (2 * d) ltac:(lia)) as Hmod.
  nia.
Qed.

Lemma roundScaled_exact (m : positive) (e : Z) (f : nat) :
  0 <= e -> roundScaled m e f = Z.pos m * 2 ^ e * 10 ^ Z.of_nat f.
Proof.
  intros He. unfold roundScaled.
  destruct (Z.leb_spec 0 e); [ring | lia].
Qed.

(** [toFixed] on values whose results ECMAScript's algorithm fixes: 1.005
    and 8.345 (neither is a binary64 value: the first lies below, the
    second above), a negative value that rounds to zero, and the exponent
    form from 1e21 on. *)
Example toFixed_examples :
  toFixed 0x1.0147ae147ae14p+0 2 = "1.00" /\
  toFixed 0x1.0b0a3d70a3d71p+3 2 = "8.35" /\
  toFixed (-0x1.0624dd2f1a9fcp-10) 2 = "-0.00" /\
  toFixed 0 2 = "0.00" /\
  toFixed nan 2 = "NaN" /\
  toFixed 0x1.b1ae4d6e2ef5p+69 2 = "1e+21" /\
  toFixed 0x1p+70 2 = "1.1805916207174113e+21".
Proof. vm_compute. repeat split. Qed.

(** ** Array access *)

Lemma element_lookup {A} (a : list A) (i : Z) :
  0 <= i -> element a i = a !! Z.to_nat i.
Proof. intros H. unfold element. case_compare; [lia | reflexivity]. Qed.

Lemma element_in_range {A} (a : list A) (i : Z) :
  0 <= i < Z.of_nat (length a) -> exists x, element a i = Some x.
Proof.
  intros H. rewrite element_lookup by lia.
  apply lookup_lt_is_Some. lia.
Qed.

Lemma element_out_of_range {A} (a : list A) (i : Z) :
  i < 0 \/ Z.of_nat (length a) <= i -> element a i = None.
Proof.
  intros H. unfold element. case_compare; [reflexivity|].
  apply lookup_ge_None. lia.
Qed.

(** ** Comparison of floats *)


(** The difference of a finite number with itself is a zero, and so is
    that zero divided by the milliseconds of an hour. *)
Lemma zero_elapsed_time (t : float) :
  isFiniteNumber t = true ->
  ((t - t) / 3600000 <=? 0)%float = true.
Proof.
  intros H.
  assert (exists s, Prim2SF (t - t)%float = S754_zero s) as [s0 Hz].
  { rewrite sub_spec. unfold isFiniteNumber in H.
    destruct (Prim2SF t) as [s|s| |s m e]; try discriminate.
    - destruct s; cbn; eauto.
    - unfold SF64sub, SFsub. cbn.
      rewrite Z.min_id. unfold shl_align. rewrite Z.sub_diag. cbn.
      destruct s; cbn; rewrite ?Z.pos_sub_diag; cbn; eauto. }
  rewrite leb_spec, div_spec, Hz.
  destruct s0; vm_compute; reflexivity.
Qed.
(** ** Rounding never makes a NaN *)

Lemma shr_1_nonneg (mrs : shr_record) :
  0 <= shr_m mrs -> 0 <= shr_m (shr_1 mrs).
Proof.
  destruct mrs as [m r s]. cbn [shr_m]. intros H.
  destruct m as [|p|p]; [reflexivity | | lia].
  destruct p; cbn; lia.
Qed.

Lemma iter_pos_shr_1_nonneg (p : positive) : forall mrs,
  0 <= shr_m mrs -> 0 <= shr_m (SpecFloat.iter_pos shr_1 p mrs).
Proof.
  induction p as [p IH|p IH|]; intros mrs H; cbn [SpecFloat.iter_pos].
  - apply IH, IH, shr_1_nonneg, H.
  - apply IH, IH, H.
  - apply shr_1_nonneg, H.
Qed.

Lemma shr_fexp_nonneg (m e : Z) (l : location) :
  0 <= m -> 0 <= shr_m (fst (shr_fexp prec emax m e l)).
Proof.
  intros H. unfold shr_fexp, shr.
  assert (0 <= shr_m (shr_record_of_loc m l)) as H0
    by (destruct l as [|[| |]]; exact H).
  destruct (_ - e) as [|p|p]; cbn [fst]; [exact H0 | | exact H0].
  apply iter_pos_shr_1_nonneg, H0.
Qed.

Lemma round_nearest_even_nonneg (m : Z) (l : location) :
  0 <= m -> 0 <= round_nearest_even m l.
Proof.
  intros H. unfold round_nearest_even.
  destruct l as [|[| |]]; try destruct (Z.even m); lia.
Qed.

Lemma binary_round_aux_not_nan (s : bool) (m e : Z) (l : location) :
  0 <= m -> binary_round_aux prec emax s m e l <> S754_nan.
Proof.
  intros H. unfold binary_round_aux.
  pose proof (shr_fexp_nonneg m e l H) as H1.
  destruct (shr_fexp prec emax m e l) as [mrs' e']. cbn [fst] in H1.
  pose proof (shr_fexp_nonneg _ e' loc_Exact
                (round_nearest_even_nonneg _ (loc_of_shr_record mrs') H1)) as H2.
  destruct (shr_fexp prec emax _ e' loc_Exact) as [mrs'' e'']. cbn [fst] in H2.
  destruct (shr_m mrs'') as [|p|p]; [discriminate | | lia].
  destruct (e'' <=? emax - prec); discriminate.
Qed.

Lemma binary_normalize_not_nan (m e : Z) (s : bool) :
  binary_normalize prec emax m e s <> S754_nan.
Proof.
  unfold binary_normalize, binary_round.
  destruct m as [|p|p]; [discriminate | |];
    destruct (shl_align _ _ _) as [mz ez];
    apply binary_round_aux_not_nan; lia.
Qed.

(** ** Sums, differences and products that are numbers *)

Lemma isFiniteNumber_Prim2SF (x : float) :
  isFiniteNumber x = true ->
  (exists s, Prim2SF x = S754_zero s) \/ (exists s m e, Prim2SF x = S754_finite s m e).
Proof.
  unfold isFiniteNumber.
  destruct (Prim2SF x) as [s|s| |s m e]; try discriminate; eauto.
Qed.

Lemma not_nan_Prim2SF (x : float) :
  PrimFloat.is_nan x = false <-> Prim2SF x <> S754_nan.
Proof.
  unfold PrimFloat.is_nan. rewrite FloatAxioms.eqb_spec.
  destruct (Prim2SF x) as [s|s| |s m e] eqn:E.
  - split; [discriminate | reflexivity].
  - split; [discriminate|]. destruct s; reflexivity.
  - split; [discriminate | congruence].
  - split; [discriminate|]. intros _. apply negb_false_iff.
    unfold SFeqb, SFcompare.
    destruct s; rewrite Z.compare_refl, Pos.compare_cont_refl; reflexivity.
Qed.

(** The difference of two finite numbers is a number. *)
Lemma sub_finite_not_nan (x y : float) :
  isFiniteNumber x = true -> isFiniteNumber y = true ->
  PrimFloat.is_nan (x - y) = false.
Proof.
  intros Hx Hy. apply not_nan_Prim2SF. rewrite FloatAxioms.sub_spec.
  destruct (isFiniteNumber_Prim2SF x Hx) as [[sx ->]|(sx & mx & ex & ->)];
    destruct (isFiniteNumber_Prim2SF y Hy) as [[sy ->]|(sy & my & ey & ->)];
    unfold SF64sub, SFsub; try discriminate.
  - destruct sx, sy; discriminate.
  - apply binary_normalize_not_nan.
Qed.

(** A number times one is a number. *)
Lemma mul_one_not_nan (x : float) :
  PrimFloat.is_nan x = false -> PrimFloat.is_nan (x * 1) = false.
Proof.
  rewrite !not_nan_Prim2SF, FloatAxioms.mul_spec. intros Hx.
  change (Prim2SF 1) with (S754_finite false 4503599627370496 (-52)).
  unfold SF64mul, SFmul.
  destruct (Prim2SF x) as [s|s| |s m e]; try discriminate; [contradiction|].
  apply binary_round_aux_not_nan. lia.
Qed.

(** The sum of a finite number and a number is a number. *)
Lemma add_finite_not_nan (x y : float) :
  isFiniteNumber x = true -> PrimFloat.is_nan y = false ->
  PrimFloat.is_nan (x + y) = false.
Proof.
  rewrite !not_nan_Prim2SF, FloatAxioms.add_spec. intros Hx Hy.
  unfold SF64add, SFadd.
  destruct (isFiniteNumber_Prim2SF x Hx) as [[sx ->]|(sx & mx & ex & ->)];
    destruct (Prim2SF y) as [sy|sy| |sy my ey]; try discriminate;
    try contradiction.
  - destruct sx, sy; discriminate.
  - apply binary_normalize_not_nan.
Qed.

(** ** A number that compares equal to one is one *)

Lemma SFcompare_finite_Eq (s : bool) (m : positive) (e : Z) (y : spec_float) :
  SFcompare (S754_finite s m e) y = Some Eq -> y = S754_finite s m e.
Proof.
  destruct y as [sy|sy| |sy my ey]; cbn [SFcompare].
  - destruct s; discriminate.
  - destruct sy; discriminate.
  - discriminate.
  - destruct s, sy; try discriminate;
      destruct (e ?= ey) eqn:He; try discriminate;
      apply Z.compare_eq in He; subst ey; intros [= H].
    + destruct (Pos.compare_cont Eq m my) eqn:Hm; try discriminate.
      apply Pos.compare_eq in Hm. subst my. reflexivity.
    + apply Pos.compare_eq in H. subst my. reflexivity.
Qed.

Lemma leb_one_not_ltb (x : float) :
  (1 <=? x)%float = true -> (1 <? x)%float = false -> x = 1%float.
Proof.
  rewrite FloatAxioms.leb_spec, FloatAxioms.ltb_spec. unfold SFleb, SFltb.
  change (Prim2SF 1) with (S754_finite false 4503599627370496 (-52)).
  intros Hle Hlt. apply Prim2SF_inj.
  change (Prim2SF 1) with (S754_finite false 4503599627370496 (-52)).
  apply SFcompare_finite_Eq.
  destruct (SFcompare _ _) as [[| |]|]; try discriminate; reflexivity.
Qed.

(** ** A point interpolated with itself *)

Lemma SFeqb_refl (x : spec_float) : x <> S754_nan -> SFeqb x x = true.
Proof.
  intros H. unfold SFeqb, SFcompare.
  destruct x as [s|s| |s m e]; try reflexivity.
  - destruct s; reflexivity.
  - contradiction.
  - destruct s; rewrite Z.compare_refl, Pos.compare_cont_refl; reflexivity.
Qed.

(** For a number [x] and any [p], [x + (x - x) * p] is NaN or equal to
    [x]. *)
Lemma interpolation_with_itself (x p : float) :
  PrimFloat.is_nan (x + (x - x) * p) = true \/
  (x + (x - x) * p =? x)%float = true.
Proof.
  destruct (PrimFloat.is_nan (x + (x - x) * p)) eqn:Hnan; [left; reflexivity|].
  right. apply not_nan_Prim2SF in Hnan.
  rewrite FloatAxioms.eqb_spec.
  rewrite FloatAxioms.add_spec, FloatAxioms.mul_spec, FloatAxioms.sub_spec in *.
  unfold SF64add, SF64mul, SF64sub in *.
  destruct (Prim2SF x) as [s|s| |s m e].
  - destruct s; cbn [SFsub SFmul] in *;
      destruct (Prim2SF p) as [sp|sp| |sp mp ep]; cbn [xorb SFadd] in *;
      try contradiction; try destruct sp; reflexivity.
  - destruct s; cbn in Hnan; contradiction.
  - cbn in Hnan. contradiction.
  - assert (SFsub prec emax (S754_finite s m e) (S754_finite s m e)
            = S754_zero false) as Hzero.
    { unfold SFsub. rewrite Z.min_id. unfold shl_align. rewrite Z.sub_diag.
      destruct s; cbn; rewrite ?Z.pos_sub_diag; reflexivity. }
    rewrite Hzero in *. cbn [SFmul] in *.
    destruct (Prim2SF p) as [sp|sp| |sp mp ep]; cbn [xorb SFadd] in *;
      try contradiction; apply SFeqb_refl; discriminate.
Qed.

(** ** NaN *)

Lemma is_nan_Prim2SF (x : float) :
  PrimFloat.is_nan x = true <-> Prim2SF x = S754_nan.
Proof.
  split.
  - intros H. unfold Prim2SF. rewrite H. reflexivity.
  - intros H. unfold PrimFloat.is_nan. rewrite FloatAxioms.eqb_spec, H. reflexivity.
Qed.

Lemma toFixed_nan (x : float) (f : nat) :
  PrimFloat.is_nan x = true -> toFixed x f = "NaN".
Proof.
  intros H. apply is_nan_Prim2SF in H. unfold toFixed. rewrite H. reflexivity.
Qed.

Lemma add_nan_l (x y : float) :
  PrimFloat.is_nan x = true -> PrimFloat.is_nan (x + y) = true.
Proof.
  rewrite !is_nan_Prim2SF, FloatAxioms.add_spec. intros ->. reflexivity.
Qed.

Lemma add_nan_r (x y : float) :
  PrimFloat.is_nan y = true -> PrimFloat.is_nan (x + y) = true.
Proof.
  rewrite !is_nan_Prim2SF, FloatAxioms.add_spec. intros ->.
  destruct (Prim2SF x); reflexivity.
Qed.

Lemma sub_nan (x y : float) :
  PrimFloat.is_nan x = true \/ PrimFloat.is_nan y = true ->
  PrimFloat.is_nan (x - y) = true.
Proof.
  rewrite !is_nan_Prim2SF, FloatAxioms.sub_spec. intros [-> | ->];
    [reflexivity | destruct (Prim2SF x); reflexivity].
Qed.

Lemma div_nan (x y : float) :
  PrimFloat.is_nan x = true \/ PrimFloat.is_nan y = true ->
  PrimFloat.is_nan (x / y) = true.
Proof.
  rewrite !is_nan_Prim2SF, FloatAxioms.div_spec. intros [-> | ->];
    [reflexivity | destruct (Prim2SF x); reflexivity].
Qed.

Lemma nan_not_le (x y : float) :
  PrimFloat.is_nan x = true -> (x <=? y)%float = false.
Proof.
  rewrite is_nan_Prim2SF, FloatAxioms.leb_spec. intros ->. reflexivity.
Qed.

Lemma foldl_add_nan (l : list float) : forall total,
  PrimFloat.is_nan total = true ->
  PrimFloat.is_nan (foldl PrimFloat.add total l) = true.
Proof.
  induction l as [|d l IH]; intros total H; cbn [foldl]; [exact H|].
  apply IH, add_nan_l, H.
Qed.

Lemma foldl_add_nan_element (l : list float) : forall total k d,
  l !! k = Some d -> PrimFloat.is_nan d = true ->
  PrimFloat.is_nan (foldl PrimFloat.add total l) = true.
Proof.
  induction l as [|x l IH]; intros total k d Hk Hd; [discriminate|].
  cbn [foldl]. destruct k as [|k].
  - injection Hk as ->. apply foldl_add_nan, add_nan_r, Hd.
  - exact (IH _ k d Hk Hd).
Qed.

Lemma mul_nan_r (x y : float) :
  PrimFloat.is_nan y = true -> PrimFloat.is_nan (x * y) = true.
Proof.
  rewrite !is_nan_Prim2SF, FloatAxioms.mul_spec. intros ->.
  destruct (Prim2SF x); reflexivity.
Qed.

(** The square root of a number below zero is NaN. *)
Lemma sqrt_negative (x : float) :
  (x <? 0)%float = true -> PrimFloat.is_nan (PrimFloat.sqrt x) = true.
Proof.
  rewrite is_nan_Prim2SF, FloatAxioms.ltb_spec, FloatAxioms.sqrt_spec.
  change (Prim2SF 0) with (S754_zero false). unfold SFltb, SF64sqrt.
  destruct (Prim2SF x) as [s|[|]| |[|] m e]; cbn; try discriminate; reflexivity.
Qed.

(** ** utils *)

Section UtilsFacts.
Context {runtime : Runtime}.

Lemma legs_lookup route k p q :
  route !! k = Some p -> route !! S k = Some q ->
  utils.legs route !! k = Some (utils.distanceKm p q).
Proof.
  intros Hp Hq. unfold utils.legs.
  rewrite lookup_zip_with, Hp. simpl.
  rewrite lookup_tail, Hq. reflexivity.
Qed.

(** While the loop stays inside the route it adds the legs in order. *)
Lemma sumLoop_in_range n : forall route i total,
  1 <= i -> i + Z.of_nat n <= Z.of_nat (length route) ->
  utils.sumLoop n route i total =
    Normal (foldl PrimFloat.add total
              (take n (drop (Z.to_nat (i - 1)) (utils.legs route)))).
Proof.
  induction n as [|n IH]; intros route i total Hi Hn.
  - reflexivity.
  - cbn [utils.sumLoop].
    destruct (element_in_range route (i - 1)) as [p Hp]; [lia|].
    destruct (element_in_range route i) as [q Hq]; [lia|].
    unfold utils.pointAt. rewrite Hp, Hq. cbn [bind].
    rewrite IH by lia.
    rewrite element_lookup in Hp, Hq by lia.
    replace (Z.to_nat i) with (S (Z.to_nat (i - 1))) in Hq by lia.
    rewrite (drop_S _ _ _ (legs_lookup _ _ _ _ Hp Hq)).
    replace (Z.to_nat (i + 1 - 1)) with (S (Z.to_nat (i - 1))) by lia.
    reflexivity.
Qed.

(** A loop that runs past the last point throws at the first element that
    is missing, [routeData[length]]. *)
Lemma sumLoop_past_end n : forall route i total,
  1 <= i -> i <= Z.max 1 (Z.of_nat (length route)) ->
  Z.max 1 (Z.of_nat (length route)) < i + Z.of_nat n ->
  utils.sumLoop n route i total =
    Throw (TypeError_undefined (Z.of_nat (length route))).
Proof.
  induction n as [|n IH]; intros route i total Hi Hmax Hn.
  - lia.
  - cbn [utils.sumLoop]. unfold utils.pointAt.
    destruct (Z.eq_dec (Z.of_nat (length route)) 0) as [H0|H0].
    + assert (i = 1) as -> by lia.
      rewrite element_out_of_range by lia. cbn [bind].
      rewrite H0. reflexivity.
    + destruct (element_in_range route (i - 1)) as [p Hp]; [lia|].
      rewrite Hp. cbn [bind].
      destruct (Z.eq_dec i (Z.of_nat (length route))) as [He|He].
      * rewrite element_out_of_range by lia. cbn [bind].
        rewrite He. reflexivity.
      * destruct (element_in_range route i) as [q Hq]; [lia|].
        rewrite Hq. cbn [bind]. apply IH; lia.
Qed.

(** X1: a negative index skips the loop. *)
Lemma calculateTotalDistance_negative route currentIndex :
  currentIndex < 0 ->
  utils.calculateTotalDistance (Some route) currentIndex = Normal (JString "0.00").
Proof.
  intros H. unfold utils.calculateTotalDistance.
  case_compare; [lia|].
  replace (Z.to_nat currentIndex) with 0%nat by lia. reflexivity.
Qed.

(** C3: for every route and every index [uptoIndex] in
    [0, length route - 1], [calculateTotalDistance] returns [0] when the
    route is absent or [uptoIndex] is [0], and otherwise the sum of the
    Haversine distances between [route[i-1]] and [route[i]] for [i] from [1]
    to [uptoIndex], rounded to two decimal places by [toFixed(2)]. *)
Theorem calculateTotalDistance_sums_legs (route : list RoutePoint) (uptoIndex : Z) :
  0 <= uptoIndex <= Z.of_nat (length route) - 1 ->
  utils.calculateTotalDistance None uptoIndex = Normal (JNumber 0) /\
  utils.calculateTotalDistance (Some route) 0 = Normal (JNumber 0) /\
  (uptoIndex <> 0 ->
   utils.calculateTotalDistance (Some route) uptoIndex =
     Normal (JString
       (toFixed (utils.cumulativeDistanceKm route (Z.to_nat uptoIndex)) 2))).
Proof.
  intros Hrange. split; [reflexivity|]. split; [reflexivity|].
  intros Hnz. unfold utils.calculateTotalDistance.
  case_compare; [contradiction|].
  rewrite sumLoop_in_range by lia.
  reflexivity.
Qed.

(** Within the route the function returns normally. *)
Lemma calculateTotalDistance_in_range_returns route currentIndex :
  0 <= currentIndex <= Z.of_nat (length route) - 1 ->
  exists v, utils.calculateTotalDistance (Some route) currentIndex = Normal v.
Proof.
  intros Hrange. unfold utils.calculateTotalDistance.
  case_compare; [eauto|].
  rewrite sumLoop_in_range by lia. cbn [bind]. eauto.
Qed.

(** C9: [calculateTotalDistance] fails for every non-zero [currentIndex]
    greater than [length routeData - 1] (on an empty array: every index from
    [1] on), with the TypeError of reading a property of the missing element
    [routeData[length]]; for [0 <= currentIndex <= length routeData - 1] it
    returns normally. *)
Theorem calculateTotalDistance_fails_past_end (route : list RoutePoint)
    (currentIndex : Z) :
  (currentIndex <> 0 -> Z.of_nat (length route) - 1 < currentIndex ->
   utils.calculateTotalDistance (Some route) currentIndex =
     Throw (TypeError_undefined (Z.of_nat (length route)))) /\
  (0 <= currentIndex <= Z.of_nat (length route) - 1 ->
   exists v, utils.calculateTotalDistance (Some route) currentIndex = Normal v).
Proof.
  split.
  - intros Hnz Hpast. unfold utils.calculateTotalDistance.
    case_compare; [contradiction|].
    rewrite sumLoop_past_end by lia. reflexivity.
  - apply calculateTotalDistance_in_range_returns.
Qed.

(** C10: for every route with more than one point and every integer
    [currentIndex] outside [0, length route - 1], [calculateSpeedKmH]
    returns ["0.00"]: the missing point is caught by the guard before any
    date is built and before any arithmetic. *)
Theorem calculateSpeedKmH_guards_missing_point (route : list RoutePoint)
    (currentIndex : Z) :
  1 < Z.of_nat (length route) ->
  currentIndex < 0 \/ Z.of_nat (length route) - 1 < currentIndex ->
  utils.calculateSpeedKmH currentIndex route = Normal "0.00".
Proof.
  intros Hlen Hout. unfold utils.calculateSpeedKmH.
  destruct (_ || _); [reflexivity|].
  rewrite (element_out_of_range route currentIndex) by lia.
  reflexivity.
Qed.

(** [new Date] returns its argument's date or throws the TypeError of the
    conversion. *)
Lemma newDate_cases (v : jsval) :
  newDate v = Normal v \/ newDate v = Throw conversionError.
Proof.
  unfold newDate. destruct v as [j|]; [|left; reflexivity].
  destruct (toPrimitiveThrows j); [right | left]; reflexivity.
Qed.

(** The code's elapsed time is the specification's, for two dates, and
    the TypeError of the conversion otherwise. *)
Lemma timeDeltaHours_elapsedHours (prevPoint currPoint : RoutePoint) :
  (utils.makesDate (timestamp prevPoint) /\ utils.makesDate (timestamp currPoint) /\
   utils.timeDeltaHours prevPoint currPoint =
     Normal (utils.elapsedHours (timestamp prevPoint) (timestamp currPoint))) \/
  (~ (utils.makesDate (timestamp prevPoint) /\ utils.makesDate (timestamp currPoint)) /\
   utils.timeDeltaHours prevPoint currPoint = Throw conversionError).
Proof.
  unfold utils.timeDeltaHours, utils.makesDate.
  destruct (newDate_cases (timestamp currPoint)) as [Hc|Hc]; rewrite Hc; cbn [bind].
  - destruct (newDate_cases (timestamp prevPoint)) as [Hp|Hp]; rewrite Hp; cbn [bind].
    + left. repeat split.
    + right. split; [|reflexivity]. intros [H _]. discriminate H.
  - right. split; [|reflexivity]. intros [_ H]. discriminate H.
Qed.

(** Inside the route, with both points there, the function is its last
    five lines. *)
Lemma calculateSpeedKmH_in_range route index prevPoint currPoint :
  index <> 0 -> 1 < Z.of_nat (length route) ->
  element route (index - 1) = Some prevPoint ->
  element route index = Some currPoint ->
  utils.calculateSpeedKmH index route =
    (timeDeltaHours <- utils.timeDeltaHours prevPoint currPoint ;;
     if (timeDeltaHours <=? 0)%float then Normal "N/A"
     else Normal (toFixed (utils.distanceKm prevPoint currPoint / timeDeltaHours) 2)).
Proof.
  intros Hnz Hlen Hp Hq. unfold utils.calculateSpeedKmH.
  destruct (Z.eqb_spec index 0) as [|_]; [contradiction|].
  destruct (Z.leb_spec (Z.of_nat (length route)) 1) as [|_]; [lia|].
  rewrite Hp, Hq. reflexivity.
Qed.

(** C5: for every route with more than one point and every index from [1]
    to [length route - 1], both points exist and [calculateSpeedKmH] returns
    the sentinel ["N/A"] exactly when the two timestamps are dates and the
    elapsed time between them, the time of [route[index]] less the time of
    [route[index-1]], is at most zero.  Whenever the two timestamps are
    dates the function returns a string, it does not raise; it raises only
    the TypeError of a timestamp that [new Date] cannot convert. *)
Theorem calculateSpeedKmH_sentinel (route : list RoutePoint) (index : Z) :
  1 < Z.of_nat (length route) ->
  1 <= index <= Z.of_nat (length route) - 1 ->
  exists prevPoint currPoint,
    element route (index - 1) = Some prevPoint /\
    element route index = Some currPoint /\
    (utils.calculateSpeedKmH index route = Normal "N/A" <->
     utils.makesDate (timestamp prevPoint) /\ utils.makesDate (timestamp currPoint) /\
     (utils.elapsedHours (timestamp prevPoint) (timestamp currPoint) <=? 0)%float
       = true) /\
    (utils.makesDate (timestamp prevPoint) -> utils.makesDate (timestamp currPoint) ->
     exists s, utils.calculateSpeedKmH index route = Normal s) /\
    (~ (utils.makesDate (timestamp prevPoint) /\ utils.makesDate (timestamp currPoint)) ->
     utils.calculateSpeedKmH index route = Throw conversionError).
Proof.
  intros Hlen Hrange.
  destruct (element_in_range route (index - 1)) as [p Hp]; [lia|].
  destruct (element_in_range route index) as [q Hq]; [lia|].
  exists p, q. split; [exact Hp|]. split; [exact Hq|].
  rewrite (calculateSpeedKmH_in_range route index p q) by (lia || assumption).
  destruct (timeDeltaHours_elapsedHours p q) as [(Hdp & Hdq & ->)|[Hnot ->]];
    cbn [bind].
  - destruct (utils.elapsedHours (timestamp p) (timestamp q) <=? 0)%float.
    + split; [split; [intros _; repeat split; assumption | reflexivity]|].
      split; [eauto|]. intros Hnot. contradiction Hnot. split; assumption.
    + split.
      { split.
        - intros [= Hs]. apply toFixed_not_sentinel in Hs. contradiction.
        - intros (_ & _ & Hle). discriminate Hle. }
      split; [eauto|]. intros Hnot. contradiction Hnot. split; assumption.
  - split; [split; [discriminate | intros (Hdp & Hdq & _); tauto]|].
    split; [|reflexivity]. intros Hdp Hdq. tauto.
Qed.

(** X2: two points whose timestamps are dates with the same time have no
    speed. *)
Lemma calculateSpeedKmH_equal_times route index prevPoint currPoint :
  index <> 0 -> 1 < Z.of_nat (length route) ->
  element route (index - 1) = Some prevPoint ->
  element route index = Some currPoint ->
  utils.makesDate (timestamp prevPoint) -> utils.makesDate (timestamp currPoint) ->
  Date_getTime (timestamp currPoint) = Date_getTime (timestamp prevPoint) ->
  isFiniteNumber (Date_getTime (timestamp prevPoint)) = true ->
  utils.calculateSpeedKmH index route = Normal "N/A".
Proof.
  intros Hnz Hlen Hp Hq Hdp Hdq Hsame Hfinite.
  rewrite (calculateSpeedKmH_in_range route index prevPoint currPoint)
    by assumption.
  destruct (timeDeltaHours_elapsedHours prevPoint currPoint)
    as [(_ & _ & ->)|[Hnot _]]; [|contradiction Hnot; split; assumption].
  cbn [bind]. unfold utils.elapsedHours. rewrite Hsame.
  rewrite (zero_elapsed_time _ Hfinite). reflexivity.
Qed.


End UtilsFacts.

(** The specification's example on the sample runtime: 0.01 degrees of
    longitude on the equator are 1.11 km, and at one minute 66.72 km/h. *)
Example sample_route_values :
  toFixed (utils.calculateDistanceKm (runtime := sample.runtime)
             0 0 0 0x1.47ae147ae147bp-7) 2 = "1.11" /\
  utils.calculateTotalDistance (runtime := sample.runtime) (Some sample.route) 1
    = Normal (JString "1.11") /\
  utils.calculateSpeedKmH (runtime := sample.runtime) 1 sample.route
    = Normal "66.72".
Proof. vm_compute. repeat split. Qed.

(** The sample route at index 2: two legs of 1.11 km. *)
Lemma calculateTotalDistance_sums_legs_witness :
  0 <= 2 <= Z.of_nat (length sample.route) - 1 /\
  utils.calculateTotalDistance (runtime := sample.runtime) (Some sample.route) 2
    = Normal (JString "2.22").
Proof.
  split; [cbn; lia|].
  destruct (calculateTotalDistance_sums_legs (runtime := sample.runtime)
              sample.route 2) as (_ & _ & H); [cbn; lia|].
  rewrite H by discriminate. vm_compute. reflexivity.
Defined.

(** The sample route has three points: index 3 fails, index 2 returns. *)
Lemma calculateTotalDistance_fails_past_end_witness :
  utils.calculateTotalDistance (runtime := sample.runtime) (Some sample.route) 3
    = Throw (TypeError_undefined 3) /\
  exists v,
    utils.calculateTotalDistance (runtime := sample.runtime) (Some sample.route) 2
      = Normal v.
Proof.
  destruct (calculateTotalDistance_fails_past_end (runtime := sample.runtime)
              sample.route 3) as [Hfail _].
  destruct (calculateTotalDistance_fails_past_end (runtime := sample.runtime)
              sample.route 2) as [_ Hok].
  split; [apply Hfail; cbn; lia | apply Hok; cbn; lia].
Defined.

(** The sample route at index -1. *)
Lemma calculateSpeedKmH_guards_missing_point_witness :
  1 < Z.of_nat (length sample.route) /\
  (-1 < 0 \/ Z.of_nat (length sample.route) - 1 < -1) /\
  utils.calculateSpeedKmH (runtime := sample.runtime) (-1) sample.route
    = Normal "0.00".
Proof.
  assert (1 < Z.of_nat (length sample.route)) as Hlen by (cbn; lia).
  assert (-1 < 0 \/ Z.of_nat (length sample.route) - 1 < -1) as Hout
    by (left; lia).
  split; [exact Hlen|]. split; [exact Hout|].
  exact (calculateSpeedKmH_guards_missing_point (runtime := sample.runtime)
           sample.route (-1) Hlen Hout).
Defined.

(** The sample route: its last two points have one timestamp, and the
    sentinel is returned at index 2; its first two are a minute apart, and
    at index 1 the elapsed time is not at most zero and the result is a
    speed. *)
Lemma calculateSpeedKmH_sentinel_witness :
  1 < Z.of_nat (length sample.route) /\
  1 <= 2 <= Z.of_nat (length sample.route) - 1 /\
  utils.calculateSpeedKmH (runtime := sample.runtime) 2 sample.route
    = Normal "N/A" /\
  utils.calculateSpeedKmH (runtime := sample.runtime) 1 sample.route
    <> Normal "N/A".
Proof.
  split; [cbn; lia|]. split; [cbn; lia|]. split.
  - destruct (calculateSpeedKmH_sentinel (runtime := sample.runtime) sample.route 2)
      as (p & q & Hp & Hq & Hiff & _); [cbn; lia | cbn; lia |].
    cbn in Hp, Hq. injection Hp as <-. injection Hq as <-.
    apply Hiff. split; [reflexivity|]. split; [reflexivity|].
    vm_compute. reflexivity.
  - destruct (calculateSpeedKmH_sentinel (runtime := sample.runtime) sample.route 1)
      as (p & q & Hp & Hq & Hiff & _); [cbn; lia | cbn; lia |].
    cbn in Hp, Hq. injection Hp as <-. injection Hq as <-.
    intros H. apply Hiff in H as (_ & _ & H). vm_compute in H. discriminate H.
Defined.


(** ** utils: numbers that are not numbers *)

Section UtilsNaN.
Context {runtime : Runtime}.

(** A leg that is NaN makes the sum NaN from there on. *)
Lemma sum_with_nan_leg (route : list RoutePoint) (uptoIndex k : Z)
    (p q : RoutePoint) :
  0 <= k < uptoIndex ->
  uptoIndex <= Z.of_nat (length route) - 1 ->
  element route k = Some p ->
  element route (k + 1) = Some q ->
  PrimFloat.is_nan (utils.distanceKm p q) = true ->
  PrimFloat.is_nan (utils.cumulativeDistanceKm route (Z.to_nat uptoIndex)) = true.
Proof.
  intros Hk Hrange Hp Hq Hnan.
  rewrite element_lookup in Hp, Hq by lia.
  replace (Z.to_nat (k + 1)) with (S (Z.to_nat k)) in Hq by lia.
  pose proof (legs_lookup _ _ _ _ Hp Hq) as Hleg.
  apply (foldl_add_nan_element _ _ (Z.to_nat k) (utils.distanceKm p q));
    [|exact Hnan].
  rewrite lookup_take_lt by lia. exact Hleg.
Qed.

Lemma calculateTotalDistance_with_nan_leg (route : list RoutePoint)
    (uptoIndex k : Z) (p q : RoutePoint) :
  0 <= k < uptoIndex ->
  uptoIndex <= Z.of_nat (length route) - 1 ->
  element route k = Some p ->
  element route (k + 1) = Some q ->
  PrimFloat.is_nan (utils.distanceKm p q) = true ->
  utils.calculateTotalDistance (Some route) uptoIndex = Normal (JString "NaN").
Proof.
  intros Hk Hrange Hp Hq Hnan. unfold utils.calculateTotalDistance.
  case_compare; [lia|].
  rewrite sumLoop_in_range by lia. cbn [bind].
  change (Z.to_nat (1 - 1)) with 0%nat. rewrite drop_0.
  rewrite toFixed_nan; [reflexivity|].
  exact (sum_with_nan_leg route uptoIndex k p q Hk Hrange Hp Hq Hnan).
Qed.

(** X4: if the distance between two consecutive points [route[k]] and
    [route[k+1]] is NaN, every cumulative distance that includes that leg
    is the string ["NaN"]: the sum is not guarded. *)
Theorem calculateTotalDistance_nan_leg (route : list RoutePoint)
    (uptoIndex k : Z) (p q : RoutePoint) :
  0 <= k < uptoIndex ->
  uptoIndex <= Z.of_nat (length route) - 1 ->
  element route k = Some p ->
  element route (k + 1) = Some q ->
  PrimFloat.is_nan (utils.distanceKm p q) = true ->
  utils.calculateTotalDistance (Some route) uptoIndex = Normal (JString "NaN").
Proof.
  intros Hk Hrange Hp Hq Hnan. unfold utils.calculateTotalDistance.
  case_compare; [lia|].
  rewrite sumLoop_in_range by lia. cbn [bind].
  rewrite element_lookup in Hp, Hq by lia.
  replace (Z.to_nat (k + 1)) with (S (Z.to_nat k)) in Hq by lia.
  pose proof (legs_lookup _ _ _ _ Hp Hq) as Hleg.
  rewrite toFixed_nan; [reflexivity|].
  apply (foldl_add_nan_element _ _ (Z.to_nat k) (utils.distanceKm p q));
    [|exact Hnan].
  change (Z.to_nat (1 - 1)) with 0%nat. rewrite drop_0.
  rewrite lookup_take_lt by lia. exact Hleg.
Qed.

(** X3: when the two timestamps are dates and either is an invalid date, one
    with no time, the speed is the string ["NaN"], not the sentinel. *)
Theorem calculateSpeedKmH_unparseable_time (route : list RoutePoint)
    (index : Z) (prevPoint currPoint : RoutePoint) :
  index <> 0 -> 1 < Z.of_nat (length route) ->
  element route (index - 1) = Some prevPoint ->
  element route index = Some currPoint ->
  utils.makesDate (timestamp prevPoint) -> utils.makesDate (timestamp currPoint) ->
  PrimFloat.is_nan (Date_getTime (timestamp prevPoint)) = true \/
  PrimFloat.is_nan (Date_getTime (timestamp currPoint)) = true ->
  utils.calculateSpeedKmH index route = Normal "NaN".
Proof.
  intros Hnz Hlen Hp Hq Hdp Hdq Hnan.
  rewrite (calculateSpeedKmH_in_range route index prevPoint currPoint)
    by assumption.
  destruct (timeDeltaHours_elapsedHours prevPoint currPoint)
    as [(_ & _ & ->)|[Hnot _]]; [|contradiction Hnot; split; assumption].
  cbn [bind].
  assert (PrimFloat.is_nan
            (utils.elapsedHours (timestamp prevPoint) (timestamp currPoint)) = true)
    as Hdelta.
  { unfold utils.elapsedHours. apply div_nan. left. apply sub_nan.
    destruct Hnan as [H|H]; [right | left]; exact H. }
  rewrite (nan_not_le _ _ Hdelta).
  rewrite toFixed_nan; [reflexivity|]. apply div_nan. right. exact Hdelta.
Qed.

(** When rounding takes the haversine [a] of two points above 1, their
    distance is NaN: [1 - a] is below zero, its square root is NaN, and so
    is the arc tangent. *)
Lemma calculateDistanceKm_nan (lat1 lon1 lat2 lon2 : float) :
  (forall x, (x <? 0)%float = true -> PrimFloat.is_nan (Math_sqrt x) = true) ->
  (forall y x, PrimFloat.is_nan x = true ->
               PrimFloat.is_nan (Math_atan2 y x) = true) ->
  (1 - utils.haversine lat1 lon1 lat2 lon2 <? 0)%float = true ->
  PrimFloat.is_nan (utils.calculateDistanceKm lat1 lon1 lat2 lon2) = true.
Proof.
  intros Hsqrt Hatan2 Ha. unfold utils.calculateDistanceKm.
  apply mul_nan_r, mul_nan_r, Hatan2, Hsqrt, Ha.
Qed.

(** C4 does not hold of the code: the cumulative distance is not monotone.
    In every runtime whose square root of a number below zero is NaN and
    whose arc tangent of a NaN is NaN, as ECMAScript has them, two points
    whose haversine [a] rounds above 1 make a route whose cumulative
    distance is the number 0 at index 0 and the string ["NaN"] at index 1;
    the numeric values are 0 and NaN, and 0 is not at most NaN. *)
Theorem calculateTotalDistance_not_monotone (p q : RoutePoint) :
  (forall x, (x <? 0)%float = true -> PrimFloat.is_nan (Math_sqrt x) = true) ->
  (forall y x, PrimFloat.is_nan x = true ->
               PrimFloat.is_nan (Math_atan2 y x) = true) ->
  (1 - utils.haversine (latitude p) (longitude p) (latitude q) (longitude q)
     <? 0)%float = true ->
  utils.calculateTotalDistance (Some [p; q]) 0 = Normal (JNumber 0) /\
  utils.calculateTotalDistance (Some [p; q]) 1 = Normal (JString "NaN") /\
  numericValue (JNumber 0) = Some 0%float /\
  numericValue (JString "NaN") = Some nan /\
  (0 <=? nan)%float = false.
Proof.
  intros Hsqrt Hatan2 Ha.
  split; [reflexivity|]. split; [|repeat split].
  apply (calculateTotalDistance_with_nan_leg [p; q] 1 0 p q);
    [lia | cbn; lia | reflexivity | reflexivity |].
  apply calculateDistanceKm_nan; assumption.
Qed.

End UtilsNaN.

(** A route whose middle point has a latitude that is NaN. *)
Lemma calculateTotalDistance_nan_leg_witness :
  let route := [sample.point 0 0 "2024-01-01T10:00:00Z";
                sample.point nan 0 "2024-01-01T10:01:00Z";
                sample.point 0 0 "2024-01-01T10:02:00Z"] in
  PrimFloat.is_nan
    (utils.distanceKm (runtime := sample.runtime)
       (sample.point 0 0 "2024-01-01T10:00:00Z")
       (sample.point nan 0 "2024-01-01T10:01:00Z")) = true /\
  utils.calculateTotalDistance (runtime := sample.runtime) (Some route) 2
    = Normal (JString "NaN").
Proof.
  cbn zeta.
  assert (PrimFloat.is_nan
            (utils.distanceKm (runtime := sample.runtime)
               (sample.point 0 0 "2024-01-01T10:00:00Z")
               (sample.point nan 0 "2024-01-01T10:01:00Z")) = true) as Hnan
    by (vm_compute; reflexivity).
  split; [exact Hnan|].
  apply (calculateTotalDistance_nan_leg (runtime := sample.runtime) _ 2 0
           (sample.point 0 0 "2024-01-01T10:00:00Z")
           (sample.point nan 0 "2024-01-01T10:01:00Z"));
    [lia | cbn; lia | reflexivity | reflexivity | exact Hnan].
Defined.

(** A route whose second point has a timestamp that is no date. *)
Lemma calculateSpeedKmH_unparseable_time_witness :
  utils.calculateSpeedKmH (runtime := sample.runtime) 1
    [sample.point 0 0 "2024-01-01T10:00:00Z";
     sample.point 0 0x1.47ae147ae147bp-7 "yesterday"] = Normal "NaN".
Proof.
  apply (calculateSpeedKmH_unparseable_time (runtime := sample.runtime) _ 1
           (sample.point 0 0 "2024-01-01T10:00:00Z")
           (sample.point 0 0x1.47ae147ae147bp-7 "yesterday"));
    [discriminate | cbn; lia | reflexivity | reflexivity | reflexivity
    | reflexivity |].
  right. vm_compute. reflexivity.
Defined.

(** The sample route at index -3. *)
Lemma calculateTotalDistance_negative_witness :
  -3 < 0 /\
  utils.calculateTotalDistance (runtime := sample.runtime) (Some sample.route) (-3)
    = Normal (JString "0.00").
Proof.
  split; [lia|].
  apply (calculateTotalDistance_negative (runtime := sample.runtime)). lia.
Defined.

(** The last two points of the sample route carry one timestamp. *)
Lemma calculateSpeedKmH_equal_times_witness :
  utils.calculateSpeedKmH (runtime := sample.runtime) 2 sample.route
    = Normal "N/A".
Proof.
  apply (calculateSpeedKmH_equal_times (runtime := sample.runtime) sample.route 2
           (sample.point 0 0x1.47ae147ae147bp-7 "2024-01-01T10:01:00Z")
           (sample.point 0 0x1.47ae147ae147bp-6 "2024-01-01T10:01:00Z"));
    [discriminate | cbn; lia | reflexivity | reflexivity | reflexivity
    | reflexivity | reflexivity |].
  vm_compute. reflexivity.
Defined.

(** The arc tangent of the sample runtime. *)
Lemma sample_atan2_nan (y x : float) :
  PrimFloat.is_nan x = true -> PrimFloat.is_nan (sample.atan2 y x) = true.
Proof.
  intros H. unfold sample.atan2. rewrite H, orb_true_r. reflexivity.
Qed.

(** The two ends of a diameter, (-84.5, -179) and (84.5, 1), on the sample
    runtime: a route that [loadData] accepts, whose haversine is
    1.0000000000000004. *)
Lemma calculateTotalDistance_not_monotone_witness :
  VehicleMap.routePoints
    (VehicleMap.routeData
       (VehicleMap.loadData
          (VehicleMap.Response true 200%N (Normal (JArray sample.antipodesJson)))
          VehicleMap.initialState)) = sample.antipodes /\
  utils.haversine (runtime := sample.runtime) (-84.5) (-179) 84.5 1
    = 0x1.0000000000002p+0%float /\
  utils.calculateTotalDistance (runtime := sample.runtime) (Some sample.antipodes) 0
    = Normal (JNumber 0) /\
  utils.calculateTotalDistance (runtime := sample.runtime) (Some sample.antipodes) 1
    = Normal (JString "NaN").
Proof.
  split; [reflexivity|]. split; [vm_compute; reflexivity|].
  destruct (calculateTotalDistance_not_monotone (runtime := sample.runtime)
              (sample.point (-84.5) (-179) "2024-01-01T10:00:00Z")
              (sample.point 84.5 1 "2024-01-02T10:00:00Z"))
    as (H0 & H1 & _).
  - exact sqrt_negative.
  - exact sample_atan2_nan.
  - vm_compute. reflexivity.
  - split; [exact H0 | exact H1].
Defined.

(** ** VehicleMap: route loading *)

Section Loading.
Import VehicleMap.

(** The callback of [every] answers [true] exactly on the elements with
    valid coordinates. *)
Lemma validPoint_true point :
  validPoint point = Normal true <-> hasCoordinates point.
Proof.
  unfold hasCoordinates, numberIn. split.
  - unfold validPoint, getMember.
    destruct point as [|b|x|s|items|members]; cbn [bind]; try discriminate.
    destruct (lookupMember "latitude" members) as [[|?|lat|?|?|?]|] eqn:Hlat;
      cbn [bind]; try discriminate.
    destruct (lookupMember "longitude" members) as [[|?|lon|?|?|?]|] eqn:Hlon;
      cbn [bind]; try discriminate.
    intros H. injection H as H.
    repeat (apply andb_true_iff in H as [H ?]).
    apply negb_true_iff in H. apply negb_true_iff in H4.
    exists members. split; [reflexivity|]. rewrite Hlat, Hlon. split; eauto 10.
  - intros (members & -> & (lat & Hlat & H1 & H2 & H3) & (lon & Hlon & H4 & H5 & H6)).
    unfold validPoint, getMember. cbn [bind].
    rewrite Hlat, Hlon, H1, H2, H3, H4, H5, H6. reflexivity.
Qed.

Lemma every_validPoint_true data :
  every validPoint data = Normal true <-> Forall hasCoordinates data.
Proof.
  induction data as [|point rest IH].
  - split; [constructor | reflexivity].
  - cbn [every]. rewrite Forall_cons, <- validPoint_true, <- IH.
    destruct (validPoint point) as [[|]|e]; cbn [bind].
    + split; [intros H; split; [reflexivity | exact H] | intros [_ H]; exact H].
    + split; [discriminate | intros [H _]; discriminate H].
    + split; [discriminate | intros [H _]; discriminate H].
Qed.

Lemma tryLoad_accepts r data :
  tryLoad r = Normal data <-> accepted r data.
Proof.
  unfold accepted. rewrite <- every_validPoint_true. split.
  - destruct r as [e|[|] status [[|b|x|s|items|members]|e]];
      cbn [tryLoad negb bind]; try discriminate.
    destruct (every validPoint items) as [[|]|e] eqn:Hevery;
      cbn [bind negb]; try discriminate.
    intros [= <-]. eauto.
  - intros [[status ->] H]. cbn [tryLoad negb bind]. rewrite H. reflexivity.
Qed.

(** An accepted element is a route point for the utilities. *)
Lemma hasCoordinates_toRoutePoint point :
  hasCoordinates point -> exists p, toRoutePoint point = Some p.
Proof.
  intros (members & -> & (lat & Hlat & _) & (lon & Hlon & _)).
  cbn [toRoutePoint]. rewrite Hlat, Hlon. eauto.
Qed.

Lemma run_routeData events : forall st,
  routeData (run events st) = routeData st.
Proof.
  unfold run. induction events as [|ev events IH]; intros st; [reflexivity|].
  cbn [foldl]. rewrite IH.
  destruct ev; cbn [step]; try reflexivity.
  unfold tick. destruct (intervalDelay st); [|reflexivity].
  unfold intervalCallback. destruct (_ <=? _); reflexivity.
Qed.

Lemma intervalDelay_empty st : routeData st = [] -> intervalDelay st = None.
Proof.
  intros H. unfold intervalDelay. rewrite H. cbn.
  rewrite andb_false_r. reflexivity.
Qed.

(** With no route, no interval is ever installed and the index stays [0]. *)
Lemma run_empty_route events : forall st,
  routeData st = [] -> currentIndex st = 0 ->
  intervalDelay (run events st) = None /\ currentIndex (run events st) = 0.
Proof.
  unfold run.
  induction events as [|ev events IH]; intros st Hroute Hindex; cbn [foldl].
  - split; [apply intervalDelay_empty; exact Hroute | exact Hindex].
  - apply IH.
    + change (routeData (run [ev] st) = []).
      rewrite run_routeData. exact Hroute.
    + destruct ev; cbn [step]; try assumption; try reflexivity.
      unfold tick. rewrite (intervalDelay_empty st Hroute). exact Hindex.
Qed.

(** C2, as the code has it: route loading accepts the fetched data exactly
    when the response is ok and its body is an array in which every element
    has a numeric, non-NaN latitude in [-90, 90] and a numeric, non-NaN
    longitude in [-180, 180]; the timestamp is not examined.  Accepted data
    become the route.  Otherwise, and so whenever a single point is
    invalid, an error message is set, the route stays empty, and playback
    cannot start: no interval is ever installed and the index stays [0]. *)
Theorem loadData_accepts_valid_coordinates (r : fetched) :
  let st := loadData r initialState in
  (error st = None <-> exists data, accepted r data) /\
  (forall data, accepted r data -> routeData st = data) /\
  (error st <> None ->
   routeData st = [] /\
   forall events, intervalDelay (run events st) = None /\
                  currentIndex (run events st) = 0) /\
  (forall status data,
     r = Response true status (Normal (JArray data)) ->
     ~ Forall hasCoordinates data -> error st <> None).
Proof.
  cbn zeta. unfold loadData.
  destruct (tryLoad r) as [data|e] eqn:Hload.
  - apply tryLoad_accepts in Hload as Hacc.
    split; [split; [eauto | reflexivity]|].
    split.
    + intros data' [[status' ->] _].
      destruct Hacc as [[status [= _ ->]] _]. reflexivity.
    + split; [intros H; exfalso; apply H; reflexivity|].
      intros status data' -> Hbad _. apply Hbad.
      destruct Hacc as [[status' [= _ ->]] H]. exact H.
  - split.
    { split; [discriminate|]. intros [data Hacc].
      apply tryLoad_accepts in Hacc. congruence. }
    split.
    { intros data Hacc. apply tryLoad_accepts in Hacc. congruence. }
    split; [|discriminate].
    intros _. split; [reflexivity|].
    intros events. apply run_empty_route; reflexivity.
Qed.

(** C2 as stated fails: an array whose only element has valid coordinates
    and no timestamp is accepted and becomes the route. *)
Lemma loadData_accepts_point_without_timestamp :
  let r := Response true 200%N (Normal (JArray [pointWithoutTimestamp])) in
  error (loadData r initialState) = None /\
  routeData (loadData r initialState) = [pointWithoutTimestamp] /\
  forall runtime : Runtime, ~ hasTimestamp pointWithoutTimestamp.
Proof.
  split; [reflexivity|]. split; [reflexivity|].
  intros runtime (members & s & [= <-] & H & _). discriminate H.
Qed.

(** Rejections: a non-2xx response, a body that is not an array, a
    coordinate out of range, a [null] element. *)
Example loadData_rejections :
  error (loadData (Response false 404%N (Normal JNull)) initialState)
    = Some "HTTP error! status: 404" /\
  error (loadData (Response true 200%N (Normal (JObject []))) initialState)
    = Some "Route data must be an array" /\
  error (loadData (Response true 200%N (Normal (JArray
           [pointWithoutTimestamp;
            JObject [("latitude", JNumber 91); ("longitude", JNumber 0)]])))
         initialState)
    = Some "Invalid coordinates in route data" /\
  error (loadData (Response true 200%N (Normal (JArray [JNull]))) initialState)
    = Some "Cannot read properties of null (reading 'latitude')".
Proof. vm_compute. repeat split. Qed.

End Loading.

(** ** VehicleMap: playback *)

Section Playback.
Import VehicleMap.

Lemma step_index_in_range st ev :
  0 <= currentIndex st <= Z.of_nat (length (routeData st)) - 1 ->
  0 <= currentIndex (step st ev)
    <= Z.of_nat (length (routeData (step st ev))) - 1.
Proof.
  intros H. destruct ev; cbn [step]; try exact H.
  - cbn. lia.
  - unfold tick. destruct (intervalDelay st); [|exact H].
    unfold intervalCallback. case_compare; cbn; lia.
Qed.

Lemma run_index_in_range events : forall st,
  0 <= currentIndex st <= Z.of_nat (length (routeData st)) - 1 ->
  0 <= currentIndex (run events st)
    <= Z.of_nat (length (routeData (run events st))) - 1.
Proof.
  unfold run. induction events as [|ev events IH]; intros st H; cbn [foldl].
  - exact H.
  - apply IH, step_index_in_range, H.
Qed.

Lemma loadData_index r : currentIndex (loadData r initialState) = 0.
Proof. unfold loadData. destruct (tryLoad r); reflexivity. Qed.

Lemma tick_at_last_index st :
  routeData st <> [] ->
  currentIndex st = Z.of_nat (length (routeData st)) - 1 ->
  currentIndex (tick st) = currentIndex st /\ isPlaying (tick st) = false.
Proof.
  intros Hroute Hlast. unfold tick, intervalDelay.
  assert (0 < Z.of_nat (length (routeData st))) as Hlen.
  { destruct (routeData st); [contradiction | cbn; lia]. }
  destruct (isPlaying st) eqn:Hplay; cbn [andb].
  - destruct (Z.ltb_spec 0 (Z.of_nat (length (routeData st)))); [|lia].
    unfold intervalCallback. case_compare; [split; reflexivity | lia].
  - split; [reflexivity | exact Hplay].
Qed.

Lemma tick_below_last_index st :
  isPlaying st = true ->
  0 <= currentIndex st < Z.of_nat (length (routeData st)) - 1 ->
  currentIndex (tick st) = currentIndex st + 1 /\ isPlaying (tick st) = true.
Proof.
  intros Hplay Hbelow. unfold tick, intervalDelay. rewrite Hplay. cbn [andb].
  destruct (Z.ltb_spec 0 (Z.of_nat (length (routeData st)))); [|lia].
  unfold intervalCallback. case_compare; [lia|].
  split; [reflexivity | exact Hplay].
Qed.

(** C1, as the code has it: after any route loading and any sequence of
    play/pause clicks, resets, speed changes and timer ticks, if the route
    has at least one point then [currentIndex] is within
    [0, length route - 1]; a tick at the last index leaves the index where
    it is and leaves [isPlaying] false; a tick below the last index while
    playing increments the index and keeps playing.  If the route is empty,
    [currentIndex] is [0] and a tick changes nothing. *)
Theorem playback_index_in_range (r : fetched) (events : list event) :
  let st := run events (loadData r initialState) in
  (routeData st <> [] ->
   0 <= currentIndex st <= Z.of_nat (length (routeData st)) - 1 /\
   (currentIndex st = Z.of_nat (length (routeData st)) - 1 ->
    currentIndex (tick st) = currentIndex st /\ isPlaying (tick st) = false) /\
   (currentIndex st < Z.of_nat (length (routeData st)) - 1 ->
    isPlaying st = true ->
    currentIndex (tick st) = currentIndex st + 1 /\ isPlaying (tick st) = true)) /\
  (routeData st = [] -> currentIndex st = 0 /\ tick st = st).
Proof.
  cbn zeta. split.
  - intros Hroute.
    assert (0 <= currentIndex (run events (loadData r initialState))
            <= Z.of_nat (length (routeData (run events (loadData r initialState)))) - 1)
      as Hrange.
    { apply run_index_in_range. rewrite loadData_index.
      rewrite run_routeData in Hroute.
      destruct (routeData (loadData r initialState)); [contradiction | cbn; lia]. }
    split; [exact Hrange|]. split.
    + apply tick_at_last_index. exact Hroute.
    + intros Hbelow Hplay. apply tick_below_last_index; [exact Hplay | lia].
  - intros Hroute. rewrite run_routeData in Hroute.
    destruct (run_empty_route events _ Hroute (loadData_index r)) as [Hd Hi].
    split; [exact Hi|]. unfold tick. rewrite Hd. reflexivity.
Qed.

(** C1 as stated fails on the empty route, which route loading accepts:
    the index [0] is above [length route - 1 = -1]. *)
Lemma empty_route_index_out_of_range :
  let st := run [] (loadData (Response true 200%N (Normal (JArray []))) initialState) in
  error st = None /\ isLoading st = false /\ routeData st = [] /\
  ~ (0 <= currentIndex st <= Z.of_nat (length (routeData st)) - 1).
Proof. cbn. repeat split; try reflexivity. lia. Qed.

(** The sample route played to its end, with a change of speed on the way. *)
Lemma playback_index_in_range_witness :
  let st := run [TogglePlay; Tick; Tick; Tick; SetSpeed 2; Tick]
              (loadData (Response true 200%N (Normal (JArray sample.routeJson)))
                 initialState) in
  routeData st <> [] /\
  0 <= currentIndex st <= Z.of_nat (length (routeData st)) - 1 /\
  currentIndex st = 2 /\ isPlaying st = false.
Proof.
  cbn zeta.
  destruct (playback_index_in_range
              (Response true 200%N (Normal (JArray sample.routeJson)))
              [TogglePlay; Tick; Tick; Tick; SetSpeed 2; Tick]) as [H _].
  cbn zeta in H.
  assert (routeData
            (run [TogglePlay; Tick; Tick; Tick; SetSpeed 2; Tick]
               (loadData (Response true 200%N (Normal (JArray sample.routeJson)))
                  initialState)) <> []) as Hroute
    by (vm_compute; discriminate).
  split; [exact Hroute|]. split; [exact (proj1 (H Hroute))|].
  vm_compute. split; reflexivity.
Defined.

Lemma routePoints_length data :
  Forall hasCoordinates data -> length (routePoints data) = length data.
Proof.
  unfold routePoints. induction 1 as [|point rest Hpoint _ IH]; [reflexivity|].
  destruct (hasCoordinates_toRoutePoint point Hpoint) as [p Hp].
  cbn [omap list_omap]. rewrite Hp. cbn [length]. rewrite <- IH. reflexivity.
Qed.

(** X12: in the running component the distance figure never fails: whatever was
    fetched and whatever the user and the timer did, when there is a route
    to show, [calculateTotalDistance] is called inside its range. *)
Lemma displayedDistance_returns {runtime : Runtime} (r : fetched)
    (events : list event) :
  let st := run events (loadData r initialState) in
  routeData st <> [] -> exists v, displayedDistance st = Normal v.
Proof.
  cbn zeta. intros Hroute. unfold displayedDistance.
  apply calculateTotalDistance_in_range_returns.
  assert (0 <= currentIndex (run events (loadData r initialState))
            <= Z.of_nat (length (routeData (run events (loadData r initialState)))) - 1)
    as Hrange.
  { apply run_index_in_range. rewrite loadData_index.
    rewrite run_routeData in Hroute.
    destruct (routeData (loadData r initialState)); [contradiction | cbn; lia]. }
  rewrite routePoints_length; [exact Hrange|].
  rewrite run_routeData. rewrite run_routeData in Hroute.
  unfold loadData in *.
  destruct (tryLoad r) as [data|e] eqn:Hload; [|contradiction].
  apply tryLoad_accepts in Hload. exact (proj2 Hload).
Qed.

(** Playing the sample route from the start: the index advances at each
    tick, stops at the last point, and the next tick pauses. *)
Example playback_runs_to_the_end :
  let st0 := loadData (Response true 200%N (Normal (JArray sample.routeJson)))
               initialState in
  (currentIndex (run [TogglePlay; Tick] st0),
   isPlaying (run [TogglePlay; Tick] st0)) = (1, true) /\
  (currentIndex (run [TogglePlay; Tick; Tick] st0),
   isPlaying (run [TogglePlay; Tick; Tick] st0)) = (2, true) /\
  (currentIndex (run [TogglePlay; Tick; Tick; Tick] st0),
   isPlaying (run [TogglePlay; Tick; Tick; Tick] st0)) = (2, false) /\
  intervalDelay (run [TogglePlay; SetSpeed 5] st0) = Some 400%float /\
  currentIndex (run [TogglePlay; Tick; ResetSimulation] st0) = 0.
Proof. vm_compute. repeat split. Qed.

End Playback.

(** ** VehicleMap: how the playback events compose *)

Section PlaybackEvents.
Import VehicleMap.

(** What a tick does to the index and to the playing flag. *)
Lemma tick_playback st :
  routeData (tick st) = routeData st /\
  currentIndex (tick st) =
    (if isPlaying st && (0 <? Z.of_nat (length (routeData st)))
     then if Z.of_nat (length (routeData st)) - 1 <=? currentIndex st
          then currentIndex st else currentIndex st + 1
     else currentIndex st) /\
  isPlaying (tick st) =
    (if isPlaying st && (0 <? Z.of_nat (length (routeData st)))
     then if Z.of_nat (length (routeData st)) - 1 <=? currentIndex st
          then false else isPlaying st
     else isPlaying st).
Proof.
  unfold tick, intervalDelay.
  destruct (isPlaying st && _); [|repeat split].
  unfold intervalCallback. destruct (_ <=? _); repeat split.
Qed.

Lemma step_samePlayback st1 st2 ev :
  samePlayback st1 st2 -> samePlayback (step st1 ev) (step st2 ev).
Proof.
  intros (Hr & Hi & Hp). destruct ev; cbn [step].
  - repeat split; cbn; congruence.
  - repeat split; cbn; congruence.
  - repeat split; cbn; congruence.
  - repeat split; cbn; congruence.
  - unfold samePlayback.
    destruct (tick_playback st1) as (-> & -> & ->).
    destruct (tick_playback st2) as (-> & -> & ->).
    rewrite Hr, Hi, Hp. repeat split.
Qed.

Lemma run_samePlayback events : forall st1 st2,
  samePlayback st1 st2 -> samePlayback (run events st1) (run events st2).
Proof.
  unfold run. induction events as [|ev events IH]; intros st1 st2 H; cbn [foldl].
  - exact H.
  - apply IH, step_samePlayback, H.
Qed.

Lemma run_app events1 events2 st :
  run (events1 ++ events2) st = run events2 (run events1 st).
Proof. unfold run. apply foldl_app. Qed.

(** X6: the speed buttons and the info button never move the playback: with
    those events erased from any sequence, the route, the index and the
    playing flag come out the same. *)
Theorem speed_and_info_leave_playback (events : list event) (st : State) :
  samePlayback (run events st)
    (run (filter (fun ev => affectsPlayback ev = true) events) st).
Proof.
  revert st. induction events as [|ev events IH]; intros st.
  - repeat split.
  - destruct (affectsPlayback ev) eqn:Hev.
    + rewrite filter_cons_True by exact Hev. apply (IH (step st ev)).
    + rewrite filter_cons_False by (rewrite Hev; discriminate).
      destruct (IH st) as (Hr & Hi & Hp).
      destruct (run_samePlayback events (step st ev) st) as (Hr' & Hi' & Hp').
      { destruct ev; try discriminate Hev; repeat split. }
      change (run (ev :: events) st) with (run events (step st ev)).
      repeat split; congruence.
Qed.

(** X7: reset forgets the history: whatever happened before it, the events
    after a reset play as they would on the reset of any state with the
    same route. *)
Theorem reset_forgets_history (history events : list event) (st : State) :
  samePlayback (run (history ++ ResetSimulation :: events) st)
    (run events (resetSimulation st)) /\
  currentIndex (run (history ++ [ResetSimulation]) st) = 0 /\
  isPlaying (run (history ++ [ResetSimulation]) st) = false.
Proof.
  split.
  - rewrite run_app.
    change (run (ResetSimulation :: events) (run history st))
      with (run events (resetSimulation (run history st))).
    apply run_samePlayback. repeat split. cbn. apply run_routeData.
  - rewrite run_app. split; reflexivity.
Qed.

Lemma run_paused (events : list event) (st : State) :
  isPlaying st = false ->
  Forall (fun ev => ev <> TogglePlay /\ ev <> ResetSimulation) events ->
  samePlayback (run events st) st.
Proof.
  intros Hpaused Hevents. revert st Hpaused.
  induction Hevents as [|ev events [Hplay Hreset] _ IH]; intros st Hpaused.
  - repeat split.
  - change (run (ev :: events) st) with (run events (step st ev)).
    assert (samePlayback (step st ev) st) as (Hr & Hi & Hp).
    { destruct ev; try contradiction; try (repeat split; fail).
      destruct (tick_playback st) as (Hr & Hi & Hp).
      rewrite Hpaused in Hi, Hp. cbn [andb] in Hi, Hp.
      cbn [step]. repeat split; congruence. }
    destruct (IH (step st ev)) as (Hr' & Hi' & Hp'); [congruence|].
    repeat split; congruence.
Qed.

Lemma ticks_are_passive (n : nat) :
  Forall (fun ev => ev <> TogglePlay /\ ev <> ResetSimulation) (repeat Tick n).
Proof.
  induction n as [|n IHn]; cbn [repeat]; constructor;
    [split; discriminate | exact IHn].
Qed.

(** X9: playing [n] ticks from index [i]: the index is [i + n], capped at the
    last index; the playback is still on exactly when [i + n] has not
    passed the last index, so the tick after the last point pauses it and
    later ticks do nothing. *)
Theorem playback_after_ticks (n : nat) : forall st : State,
  isPlaying st = true ->
  0 <= currentIndex st <= Z.of_nat (length (routeData st)) - 1 ->
  let st' := run (repeat Tick n) st in
  currentIndex st' =
    Z.min (currentIndex st + Z.of_nat n) (Z.of_nat (length (routeData st)) - 1) /\
  isPlaying st' =
    (currentIndex st + Z.of_nat n <=? Z.of_nat (length (routeData st)) - 1).
Proof.
  induction n as [|n IH]; intros st Hplay Hrange; cbn zeta.
  - cbn [repeat run foldl]. rewrite Z.add_0_r.
    split; [lia|]. rewrite Hplay. symmetry. apply Z.leb_le. lia.
  - change (run (repeat Tick (S n)) st) with (run (repeat Tick n) (tick st)).
    destruct (tick_playback st) as (Hr & Hi & Hp).
    rewrite Hplay in Hi, Hp. cbn [andb] in Hi, Hp.
    destruct (Z.ltb_spec 0 (Z.of_nat (length (routeData st)))); [|lia].
    destruct (Z.leb_spec (Z.of_nat (length (routeData st)) - 1) (currentIndex st)).
    + destruct (run_paused (repeat Tick n) (tick st) Hp (ticks_are_passive n))
        as (_ & Hi' & Hp').
      rewrite Hi', Hp', Hi, Hp. split; [lia|].
      symmetry. apply Z.leb_gt. lia.
    + destruct (IH (tick st)) as (Hi' & Hp'); [congruence | rewrite Hr, Hi; lia|].
      cbn zeta in Hi', Hp'. rewrite Hi', Hp', Hr, Hi.
      split; [lia|]. f_equal. lia.
Qed.

(** The sample route, played for five ticks from its start. *)
Lemma playback_after_ticks_witness :
  let st := togglePlay
              (loadData (Response true 200%N (Normal (JArray sample.routeJson)))
                 initialState) in
  isPlaying st = true /\
  currentIndex (run (repeat Tick 5) st) = 2 /\
  isPlaying (run (repeat Tick 5) st) = false.
Proof.
  cbn zeta. split; [reflexivity|].
  apply (playback_after_ticks 5
           (togglePlay
              (loadData (Response true 200%N (Normal (JArray sample.routeJson)))
                 initialState))).
  - reflexivity.
  - vm_compute. split; discriminate.
Defined.

End PlaybackEvents.

(** ** VehicleMap: the interval and its cleanup *)

Section Intervals.
Import VehicleMap.

Lemma sameDependencies_true d1 d2 : sameDependencies d1 d2 = true -> d1 = d2.
Proof.
  destruct d1 as [[p1 n1] s1], d2 as [[p2 n2] s2]. unfold sameDependencies.
  cbn [fst snd]. intros H.
  apply andb_true_iff in H as [H Hs]. apply andb_true_iff in H as [Hp Hn].
  apply Bool.eqb_prop in Hp. apply Z.eqb_eq in Hn.
  apply FloatAxioms.Leibniz.eqb_spec in Hs. congruence.
Qed.

Lemma intervalDelay_dependencies st1 st2 :
  dependenciesOf st1 = dependenciesOf st2 -> intervalDelay st1 = intervalDelay st2.
Proof.
  unfold dependenciesOf, intervalDelay. intros [= -> -> ->]. reflexivity.
Qed.

Lemma startInterval_state m : state (startInterval m) = state m.
Proof. unfold startInterval. destruct (intervalDelay _); reflexivity. Qed.

Lemma clearHeldInterval_state m : state (clearHeldInterval m) = state m.
Proof. unfold clearHeldInterval. destruct (intervalRef m); reflexivity. Qed.

Lemma commit_state st m : state (commit st m) = st.
Proof.
  unfold commit. cbv zeta. destruct (sameDependencies _ _); [reflexivity|].
  cbn [set_dependencies state].
  rewrite startInterval_state, clearHeldInterval_state. reflexivity.
Qed.

(** The cleanup clears the one interval there is. *)
Lemma clearHeldInterval_intervals st m :
  settled m -> intervals (clearHeldInterval (set_state st m)) = [].
Proof.
  intros [_ H]. unfold clearHeldInterval. cbn [set_state intervalRef intervals].
  destruct (intervals m) as [|[id i] [|j rest]] eqn:Hint; [| |contradiction].
  - destruct (intervalRef m); cbn; rewrite ?Hint; reflexivity.
  - destruct H as (-> & _). cbn. rewrite ?Hint. cbn.
    destruct (decide (id <> id)) as [Hne|_]; [contradiction | reflexivity].
Qed.

Lemma commit_settled st m : settled m -> settled (commit st m).
Proof.
  intros Hm. unfold commit. cbv zeta.
  destruct (sameDependencies _ _) eqn:Hsame.
  - apply sameDependencies_true in Hsame. cbn [set_state dependencies] in Hsame.
    destruct Hm as [Hdeps H]. unfold settled. cbn [set_state dependencies state intervals intervalRef].
    split; [congruence|].
    assert (dependenciesOf st = dependenciesOf (state m)) as Heq by congruence.
    rewrite (intervalDelay_dependencies _ _ Heq).
    injection Heq as _ Hlen _. rewrite Hlen. exact H.
  - pose proof (clearHeldInterval_intervals st m Hm) as Hclear.
    pose proof (clearHeldInterval_state (set_state st m)) as Hstate.
    change (state (set_state st m)) with st in Hstate.
    unfold settled, startInterval. rewrite Hstate.
    destruct (intervalDelay st) as [d|] eqn:Hdelay.
    + cbn. rewrite ?Hclear, ?Hdelay. cbn. repeat split.
    + cbn. rewrite ?Hclear, ?Hstate, ?Hdelay. repeat split.
Qed.

Lemma react_settled m o : settled m -> settled (react m o).
Proof.
  intros Hm. destruct o as [b|id]; cbn [react].
  - apply commit_settled, Hm.
  - destruct (intervalOf id m); [apply commit_settled, Hm | exact Hm].
Qed.

Lemma loaded_settled r : settled (loaded r).
Proof. apply commit_settled. split; reflexivity. Qed.

Lemma reached_settled r (occurrences : list occurrence) :
  settled (foldl react (loaded r) occurrences).
Proof.
  pose proof (loaded_settled r) as H. revert H. generalize (loaded r).
  induction occurrences as [|o occurrences IH]; intros m H; cbn [foldl].
  - exact H.
  - apply IH, react_settled, H.
Qed.

(** The callback of the interval that is set is the callback of the
    state's own route: a live closure is never stale. *)
Lemma fires_tick m id i :
  settled m -> intervalOf id m = Some i ->
  closedCallback (closedLength i) (state m) = tick (state m).
Proof.
  intros [_ H]. unfold intervalOf.
  destruct (intervals m) as [|[id' i'] [|j rest]]; [discriminate | | contradiction].
  cbn. destruct (Nat.eqb id' id); [|discriminate]. cbn. intros [= <-].
  destruct H as (_ & Hdelay & Hlen).
  unfold tick. rewrite Hdelay, Hlen. reflexivity.
Qed.

(** X8: the interval effect and its cleanup.  After any fetch, any clicks and
    any firing of timers, at most one interval is set; one is set exactly
    when the playback is on and the route is not empty; [intervalRef] holds
    its id, its delay is 2000 ms over the speed, and its callback has closed
    over the length of the route.  So the firing of a timer is the tick of
    the state when its interval is set and changes nothing otherwise, and
    while the playback is paused no timer changes anything: the cleanup
    has cleared the interval. *)
Theorem paused_ticks_change_nothing (r : fetched) (occurrences : list occurrence) :
  let m := foldl react (loaded r) occurrences in
  (length (intervals m) <= 1)%nat /\
  (forall id i, (id, i) ∈ intervals m ->
     intervalRef m = Some id /\
     isPlaying (state m) = true /\ routeData (state m) <> [] /\
     delay i = (2000 / speed (state m))%float /\
     closedLength i = Z.of_nat (length (routeData (state m)))) /\
  (isPlaying (state m) = true -> routeData (state m) <> [] ->
   exists id i, intervals m = [(id, i)]) /\
  (forall id, state (react m (Fires id)) =
     match intervalOf id m with
     | Some _ => tick (state m)
     | None => state m
     end) /\
  (isPlaying (state m) = false ->
   intervals m = [] /\ forall id, react m (Fires id) = m).
Proof.
  cbn zeta. pose proof (reached_settled r occurrences) as Hm.
  set (m := foldl react (loaded r) occurrences) in *.
  assert (forall id, state (react m (Fires id)) =
            match intervalOf id m with
            | Some _ => tick (state m)
            | None => state m
            end) as Hfires.
  { intros id. cbn [react]. destruct (intervalOf id m) as [i|] eqn:Hi; [|reflexivity].
    rewrite commit_state. exact (fires_tick m id i Hm Hi). }
  destruct Hm as [Hdeps H]. unfold intervalDelay in H.
  destruct (intervals m) as [|[id i] [|j rest]] eqn:Hint; [| |contradiction].
  - split; [cbn; lia|]. split; [intros id i Hin; inversion Hin|].
    split.
    { intros Hplay Hroute. rewrite Hplay in H. cbn [andb] in H.
      destruct (routeData (state m)); [contradiction | discriminate H]. }
    split; [exact Hfires|]. intros _. split; [reflexivity|].
    intros id. cbn [react]. unfold intervalOf. rewrite Hint. reflexivity.
  - destruct H as (Href & Hdelay & Hlen).
    destruct (isPlaying (state m)) eqn:Hplay; [|discriminate Hdelay].
    cbn [andb] in Hdelay.
    destruct (Z.ltb_spec 0 (Z.of_nat (length (routeData (state m))))) as [Hpos|];
      [|discriminate Hdelay].
    injection Hdelay as Hdelay.
    split; [cbn; lia|]. split.
    { intros id' i' Hin. apply list_elem_of_singleton in Hin.
      injection Hin as -> ->. repeat split; try assumption; try congruence.
      intros Hroute. rewrite Hroute in Hpos. cbn in Hpos. lia. }
    split; [eauto|]. split; [exact Hfires|]. discriminate.
Qed.

(** The sample route: a click on play sets an interval of 2000 ms; a click
    on 2x clears it and sets one of 1000 ms; the timer cleared does nothing
    and the one set moves the index; a click on pause leaves no interval. *)
Example intervals_of_a_run :
  let m0 := loaded (Response true 200%N (Normal (JArray sample.routeJson))) in
  let m1 := foldl react m0 [Click PlayPause] in
  let m2 := foldl react m1 [Click (Speed 2)] in
  intervals m0 = [] /\
  intervals m1 = [(1%nat, {| closedLength := 3; delay := 2000 |})] /\
  intervals m2 = [(2%nat, {| closedLength := 3; delay := 1000 |})] /\
  currentIndex (state (react m2 (Fires 1))) = 0 /\
  currentIndex (state (react m2 (Fires 2))) = 1 /\
  intervals (foldl react m2 [Fires 2; Click PlayPause; Fires 2]) = [] /\
  currentIndex (state (foldl react m2 [Fires 2; Click PlayPause; Fires 2])) = 1.
Proof. vm_compute. repeat split. Qed.

End Intervals.

(** ** VehicleMap: the error of a rejected route *)

Section LoadErrors.
Import VehicleMap.

(** Only [null] makes the callback of [every] throw. *)
Lemma validPoint_returns point :
  point <> JNull -> exists b, validPoint point = Normal b.
Proof.
  intros Hnull. unfold validPoint, getMember.
  destruct point as [|b|x|s|items|members]; cbn [bind]; eauto; [contradiction|].
  destruct (lookupMember "latitude" members) as [[|?|lat|?|?|?]|];
    cbn [bind]; eauto.
  destruct (lookupMember "longitude" members) as [[|?|lon|?|?|?]|];
    cbn [bind]; eauto.
Qed.

(** [every] stops at the first element without valid coordinates: it
    throws if that element is [null] and answers [false] otherwise. *)
Lemma every_first_invalid good : forall bad rest,
  Forall hasCoordinates good -> ~ hasCoordinates bad ->
  every validPoint (good ++ bad :: rest) =
    match bad with
    | JNull => Throw TypeError_null
    | _ => Normal false
    end.
Proof.
  induction good as [|point good IH]; intros bad rest Hgood Hbad.
  - cbn [app every].
    assert (bad = JNull \/ bad <> JNull) as [->|Hnull]
      by (destruct bad; auto; right; discriminate).
    + reflexivity.
    + destruct (validPoint_returns bad Hnull) as [b Hb]. rewrite Hb. cbn [bind].
      destruct b.
      * exfalso. apply Hbad, validPoint_true, Hb.
      * destruct bad; try reflexivity. contradiction.
  - apply Forall_cons in Hgood as [Hpoint Hgood].
    cbn [app every]. apply validPoint_true in Hpoint. rewrite Hpoint. cbn [bind].
    apply IH; assumption.
Qed.

(** X5: the error message of a rejected load, for any state loading starts
    from: the message of the rejection of [fetch] or of [response.json()];
    the status of a response that is not ok, whatever its body; the notice
    that the data are no array; and for an array, decided by its first
    element without valid coordinates, the TypeError of reading [null] if
    that element is [null] and the notice of invalid coordinates
    otherwise. *)
Theorem loadData_error_message (st : State) :
  (forall e, error (loadData (Rejected e) st) = Some (message e)) /\
  (forall status body,
     error (loadData (Response false status body) st)
       = Some ("HTTP error! status: " ++ decimal (Z.of_N status))) /\
  (forall status e,
     error (loadData (Response true status (Throw e)) st) = Some (message e)) /\
  (forall status v, (forall items, v <> JArray items) ->
     error (loadData (Response true status (Normal v)) st)
       = Some "Route data must be an array") /\
  (forall status good bad rest,
     Forall hasCoordinates good -> ~ hasCoordinates bad ->
     error (loadData (Response true status (Normal (JArray (good ++ bad :: rest)))) st)
       = Some match bad with
              | JNull => "Cannot read properties of null (reading 'latitude')"
              | _ => "Invalid coordinates in route data"
              end).
Proof.
  repeat split.
  - intros status v Harray. unfold loadData. cbn [tryLoad negb bind].
    destruct v; try reflexivity. exfalso. exact (Harray _ eq_refl).
  - intros status good bad rest Hgood Hbad.
    unfold loadData. cbn [tryLoad negb bind].
    rewrite (every_first_invalid good bad rest Hgood Hbad).
    destruct bad; reflexivity.
Qed.

End LoadErrors.

(** ** VehicleMap: what is rendered *)

Section Rendering.
Import VehicleMap.

(** A prefix taken with [slice]. *)
Lemma slice_prefix {A} (a : list A) (n : Z) :
  0 <= n -> slice a 0 n = take (Z.to_nat n) a.
Proof.
  intros Hn. unfold slice.
  destruct (Z.ltb_spec 0 0) as [|_]; [lia|].
  destruct (Z.ltb_spec n 0) as [|_]; [lia|].
  replace (Z.to_nat (Z.min 0 (Z.of_nat (length a)))) with 0%nat by lia.
  rewrite drop_0.
  destruct (Z.le_ge_cases n (Z.of_nat (length a))).
  - f_equal. lia.
  - rewrite !take_ge by lia. reflexivity.
Qed.

Lemma mapArray_coordinatePair data :
  Forall hasCoordinates data ->
  exists full, mapArray coordinatePair data = Normal full /\
               length full = length data /\ Forall inRange full.
Proof.
  induction 1 as [|point rest (members & -> & Hlat & Hlon) _ (full & Hfull & Hlen & Hall)].
  - exists []. repeat split. constructor.
  - exists ((lookupMember "latitude" members, lookupMember "longitude" members) :: full).
    cbn [mapArray coordinatePair getMember bind]. rewrite Hfull. cbn [bind length].
    repeat split; [congruence|]. constructor; [split; assumption | exact Hall].
Qed.

Lemma run_error events : forall st,
  error (run events st) = error st /\ isLoading (run events st) = isLoading st.
Proof.
  unfold run. induction events as [|ev events IH]; intros st; [split; reflexivity|].
  cbn [foldl]. destruct (IH (step st ev)) as [-> ->].
  destruct ev; cbn [step]; try (split; reflexivity).
  unfold tick. destruct (intervalDelay st); [|split; reflexivity].
  unfold intervalCallback. destruct (_ <=? _); split; reflexivity.
Qed.

(** What the state is after loading and any events. *)
Lemma run_loaded (r : fetched) (events : list event) :
  let st := run events (loadData r initialState) in
  isLoading st = false /\
  ((exists data, accepted r data /\ routeData st = data /\ error st = None) \/
   (exists e, tryLoad r = Throw e /\ routeData st = [] /\
              error st = Some (message e))).
Proof.
  cbn zeta. destruct (run_error events (loadData r initialState)) as [-> ->].
  rewrite run_routeData. unfold loadData.
  destruct (tryLoad r) as [data|e] eqn:Hload.
  - split; [reflexivity|]. left. exists data.
    split; [apply tryLoad_accepts, Hload | split; reflexivity].
  - split; [reflexivity|]. right. exists e. repeat split.
Qed.

Lemma loaded_index_in_range (r : fetched) (events : list event) :
  let st := run events (loadData r initialState) in
  routeData st <> [] ->
  0 <= currentIndex st <= Z.of_nat (length (routeData st)) - 1.
Proof.
  cbn zeta. intros Hroute.
  apply run_index_in_range. rewrite loadData_index.
  rewrite run_routeData in Hroute.
  destruct (routeData (loadData r initialState)); [contradiction | cbn; lia].
Qed.

Lemma loaded_route_accepted (r : fetched) (events : list event) :
  let st := run events (loadData r initialState) in
  routeData st <> [] ->
  Forall hasCoordinates (routeData st) /\ error st = None /\ isLoading st = false.
Proof.
  cbn zeta. intros Hroute.
  destruct (run_loaded r events) as [Hloading [(data & Hacc & Hr & He)|(e & _ & Hr & _)]];
    [|contradiction].
  rewrite Hr. split; [exact (proj2 Hacc) | split; assumption].
Qed.

(** X10: the two polylines of a loaded route: for any fetch and any events, when
    there is a route, neither [map] nor [slice] fails; the full line has one
    pair of in-range coordinates per route point, and the travelled line is
    its first [currentIndex + 1] pairs, the whole line at the last index. *)
Theorem traveledRouteCoords_prefix (r : fetched) (events : list event) :
  let st := run events (loadData r initialState) in
  routeData st <> [] ->
  exists full traveled,
    fullRouteCoords st = Normal full /\
    traveledRouteCoords st = Normal traveled /\
    length full = length (routeData st) /\
    Forall inRange full /\
    traveled = take (Z.to_nat (currentIndex st) + 1) full /\
    length traveled = (Z.to_nat (currentIndex st) + 1)%nat /\
    (currentIndex st = Z.of_nat (length (routeData st)) - 1 -> traveled = full).
Proof.
  cbn zeta. intros Hroute.
  pose proof (loaded_index_in_range r events Hroute) as Hrange.
  destruct (loaded_route_accepted r events Hroute) as (Hall & _ & _).
  destruct (mapArray_coordinatePair _ Hall) as (full & Hfull & Hlen & Hin).
  exists full, (take (Z.to_nat (currentIndex (run events (loadData r initialState))) + 1) full).
  unfold traveledRouteCoords, fullRouteCoords. rewrite Hfull. cbn [bind].
  rewrite slice_prefix by lia.
  replace (Z.to_nat (currentIndex (run events (loadData r initialState)) + 1))
    with (Z.to_nat (currentIndex (run events (loadData r initialState))) + 1)%nat by lia.
  repeat split; try assumption.
  - rewrite length_take. lia.
  - intros Hlast. apply take_ge. lia.
Qed.


End Rendering.

Section RenderingFigures.
Import VehicleMap.
Context {runtime : Runtime}.

(** An accepted element is an object with two numbers, and the route point
    that the utilities read at its index has them and its timestamp. *)
Lemma routePoints_lookup data : forall (k : nat) (point : json),
  Forall hasCoordinates data -> data !! k = Some point ->
  exists members lat lon,
    point = JObject members /\
    lookupMember "latitude" members = Some (JNumber lat) /\
    lookupMember "longitude" members = Some (JNumber lon) /\
    routePoints data !! k =
      Some {| latitude := lat; longitude := lon;
              timestamp := lookupMember "timestamp" members |}.
Proof.
  induction data as [|first rest IH]; intros k point Hall Hk; [discriminate|].
  apply Forall_cons in Hall as [Hfirst Hrest].
  destruct Hfirst as (members & -> & (lat & Hlat & _) & (lon & Hlon & _)).
  unfold routePoints. cbn [omap list_omap toRoutePoint]. rewrite Hlat, Hlon.
  destruct k as [|k].
  - injection Hk as <-. exists members, lat, lon. repeat split; assumption.
  - exact (IH k point Hrest Hk).
Qed.

(** The speed figure inside the route: a string when the timestamps it
    reads are dates, and the TypeError of the conversion otherwise. *)
Lemma calculateSpeedKmH_outcome (route : list RoutePoint) (index : Z) :
  0 <= index <= Z.of_nat (length route) - 1 ->
  (datesAt route index -> exists s, utils.calculateSpeedKmH index route = Normal s) /\
  (index <> 0 -> ~ datesAt route index ->
   utils.calculateSpeedKmH index route = Throw conversionError).
Proof.
  intros Hrange.
  destruct (Z.eq_dec index 0) as [->|Hnz].
  { split; [eauto | contradiction]. }
  destruct (element_in_range route (index - 1)) as [p Hp]; [lia|].
  destruct (element_in_range route index) as [q Hq]; [lia|].
  rewrite (calculateSpeedKmH_in_range route index p q) by (lia || assumption).
  destruct (timeDeltaHours_elapsedHours p q) as [(Hdp & Hdq & ->)|[Hnot ->]];
    cbn [bind].
  - split.
    + intros _. destruct (_ <=? _)%float; eauto.
    + intros _ Hno. contradiction Hno. split.
      * intros q' Hq'. congruence.
      * intros _ p' Hp'. congruence.
  - split; [|reflexivity].
    intros [Hcurr Hprev]. contradiction Hnot. split; [apply (Hprev Hnz) | apply Hcurr];
      assumption.
Qed.

(** X11: the screen after loading, for any fetch and any events: never the
    spinner.  With a route of at least one point, it is the map when the
    timestamps it reads are dates, with the number of the point, the
    location to six decimals, the speed, the distance and the time of the
    current point; it is the TypeError of the conversion when one of them
    is no date.  With no route, it is the error box if the error message is
    a non-empty string, and the notice that there is no route otherwise (an
    accepted empty array, or an error whose message is empty). *)
Theorem render_after_loading (r : fetched) (events : list event) :
  let st := run events (loadData r initialState) in
  let route := routePoints (routeData st) in
  (routeData st <> [] -> datesAt route (currentIndex st) ->
   exists p shown,
     element route (currentIndex st) = Some p /\
     render st = Normal (MapView shown) /\
     pointOf shown = (currentIndex st + 1, Z.of_nat (length (routeData st))) /\
     locationText shown = (toFixed (latitude p) 6, toFixed (longitude p) 6) /\
     displayedSpeed st = Normal (speedText shown) /\
     displayedDistance st = Normal (distanceText shown) /\
     timeText shown = Date_toLocaleTimeString (timestamp p)) /\
  (routeData st <> [] -> ~ datesAt route (currentIndex st) ->
   render st = Throw conversionError) /\
  (routeData st = [] ->
   render st = Normal match error st with
                      | Some m => if String.eqb m "" then NoRouteView
                                  else ErrorView m
                      | None => NoRouteView
                      end).
Proof.
  cbn zeta.
  set (st := run events (loadData r initialState)).
  assert (routeData st <> [] ->
          exists point members lat lon full traveled distance,
            currentPosition st = Some point /\ point = JObject members /\
            lookupMember "latitude" members = Some (JNumber lat) /\
            lookupMember "longitude" members = Some (JNumber lon) /\
            element (routePoints (routeData st)) (currentIndex st) =
              Some {| latitude := lat; longitude := lon;
                      timestamp := lookupMember "timestamp" members |} /\
            fullRouteCoords st = Normal full /\
            traveledRouteCoords st = Normal traveled /\
            displayedDistance st = Normal distance /\
            0 <= currentIndex st
              <= Z.of_nat (length (routePoints (routeData st))) - 1 /\
            (0 <? Z.of_nat (length (routeData st))) = true /\
            isLoading st = false /\ error st = None) as Hroute.
  { intros Hroute.
    pose proof (loaded_index_in_range r events Hroute) as Hrange.
    destruct (loaded_route_accepted r events Hroute) as (Hall & Herror & Hloading).
    fold st in Hrange, Hall, Herror, Hloading.
    destruct (mapArray_coordinatePair _ Hall) as (full & Hfull & _).
    destruct (element_in_range (routeData st) (currentIndex st)) as [point Hpoint];
      [lia|].
    pose proof Hpoint as Hk. rewrite element_lookup in Hk by lia.
    destruct (routePoints_lookup _ _ _ Hall Hk)
      as (members & lat & lon & -> & Hlat & Hlon & Hrp).
    rewrite <- element_lookup in Hrp by lia.
    pose proof (routePoints_length _ Hall) as Hlen.
    destruct (calculateTotalDistance_in_range_returns
                (routePoints (routeData st)) (currentIndex st)) as [distance Hd];
      [lia|].
    exists (JObject members), members, lat, lon, full,
      (slice full 0 (currentIndex st + 1)), distance.
    change (mapArray coordinatePair (routeData st)) with (fullRouteCoords st)
      in Hfull.
    unfold traveledRouteCoords. rewrite Hfull. cbn [bind].
    repeat split; try assumption; try lia; try reflexivity.
    all: try (apply Z.ltb_lt; lia). }
  split; [|split].
  - intros Hne Hdates.
    destruct (Hroute Hne) as (point & members & lat & lon & full & traveled &
      distance & Hpoint & -> & Hlat & Hlon & Hrp & Hfull & Htraveled & Hdistance &
      Hrange & Hlen & Hloading & Herror).
    destruct (proj1 (calculateSpeedKmH_outcome _ _ Hrange) Hdates) as [s Hs].
    pose proof (proj1 Hdates _ Hrp) as Hdate. cbn [timestamp] in Hdate.
    eexists. eexists. split; [exact Hrp|].
    unfold render. rewrite Hfull, Htraveled, Hloading, Herror, Hpoint.
    cbn [bind routeView truthy]. unfold mapFigures. rewrite Hlen.
    cbn [getMember bind]. rewrite Hlat, Hlon. cbn [callToFixed bind].
    unfold displayedSpeed in *. rewrite Hs, Hdistance. cbn [bind].
    unfold utils.makesDate in Hdate. rewrite Hdate. cbn [bind].
    repeat split.
  - intros Hne Hno.
    destruct (Hroute Hne) as (point & members & lat & lon & full & traveled &
      distance & Hpoint & -> & Hlat & Hlon & Hrp & Hfull & Htraveled & Hdistance &
      Hrange & Hlen & Hloading & Herror).
    unfold render. rewrite Hfull, Htraveled, Hloading, Herror, Hpoint.
    cbn [bind routeView truthy]. unfold mapFigures. rewrite Hlen.
    cbn [getMember bind]. rewrite Hlat, Hlon. cbn [callToFixed bind].
    destruct (Z.eq_dec (currentIndex st) 0) as [Hzero|Hnz].
    + assert (displayedSpeed st = Normal "0.00") as ->.
      { unfold displayedSpeed, utils.calculateSpeedKmH. rewrite Hzero. reflexivity. }
      rewrite Hdistance. cbn [bind].
      destruct (newDate_cases (lookupMember "timestamp" members)) as [Hdate | ->];
        [|reflexivity].
      contradiction Hno. split; [|contradiction].
      intros p Hp. rewrite Hrp in Hp. injection Hp as <-. exact Hdate.
    + unfold displayedSpeed.
      rewrite (proj2 (calculateSpeedKmH_outcome _ _ Hrange) Hnz Hno). reflexivity.
  - intros Hempty.
    destruct (run_loaded r events) as [Hloading _]. cbn zeta in Hloading.
    fold st in Hloading.
    unfold render, traveledRouteCoords, fullRouteCoords, currentPosition.
    rewrite Hempty, Hloading. cbn [mapArray bind].
    rewrite element_out_of_range by (cbn; lia).
    destruct (error st) as [m|]; [|reflexivity].
    cbn [truthy routeView]. destruct (String.eqb m ""); reflexivity.
Qed.

End RenderingFigures.

(** A fetch rejected with an error whose message is empty. *)
Lemma render_empty_error_message :
  VehicleMap.render (runtime := sample.runtime)
    (VehicleMap.loadData (VehicleMap.Rejected (Error "")) VehicleMap.initialState)
    = Normal VehicleMap.NoRouteView.
Proof. reflexivity. Qed.

Section RenderingWitnesses.
Import VehicleMap.

(** The sample route after one tick: two of its three pairs are travelled. *)
Lemma traveledRouteCoords_prefix_witness :
  let st := run [TogglePlay; Tick]
              (loadData (Response true 200%N (Normal (JArray sample.routeJson)))
                 initialState) in
  routeData st <> [] /\
  exists traveled,
    traveledRouteCoords st = Normal traveled /\ length traveled = 2%nat.
Proof.
  cbn zeta.
  assert (routeData
            (run [TogglePlay; Tick]
               (loadData (Response true 200%N (Normal (JArray sample.routeJson)))
                  initialState)) <> []) as Hroute
    by (vm_compute; discriminate).
  split; [exact Hroute|].
  destruct (traveledRouteCoords_prefix
              (Response true 200%N (Normal (JArray sample.routeJson)))
              [TogglePlay; Tick] Hroute)
    as (full & traveled & _ & Htraveled & _ & _ & _ & Hlen & _).
  exists traveled. split; [exact Htraveled | exact Hlen].
Defined.

(** The sample route played to its end. *)
Lemma displayedDistance_returns_witness :
  let st := run [TogglePlay; Tick; Tick; Tick]
              (loadData (Response true 200%N (Normal (JArray sample.routeJson)))
                 initialState) in
  routeData st <> [] /\
  exists v, displayedDistance (runtime := sample.runtime) st = Normal v.
Proof.
  cbn zeta.
  assert (routeData
            (run [TogglePlay; Tick; Tick; Tick]
               (loadData (Response true 200%N (Normal (JArray sample.routeJson)))
                  initialState)) <> []) as Hroute
    by (vm_compute; discriminate).
  split; [exact Hroute|].
  exact (displayedDistance_returns (runtime := sample.runtime)
           (Response true 200%N (Normal (JArray sample.routeJson)))
           [TogglePlay; Tick; Tick; Tick] Hroute).
Defined.

(** The sample route on the map after one tick; the route with a timestamp
    that is no date, which throws at its second point; and a failed fetch
    on the error box. *)
Lemma render_after_loading_witness :
  (exists shown,
     render (runtime := sample.runtime)
       (run [TogglePlay; Tick]
          (loadData (Response true 200%N (Normal (JArray sample.routeJson)))
             initialState)) = Normal (MapView shown) /\
     pointOf shown = (2, 3) /\
     locationText shown = ("0.000000", "0.010000") /\
     speedText shown = "66.72" /\
     distanceText shown = JString "1.11" /\
     timeText shown = "10:01:00") /\
  render (runtime := sample.runtime)
    (run [TogglePlay; Tick]
       (loadData (Response true 200%N (Normal (JArray sample.unconvertibleJson)))
          initialState)) = Throw conversionError /\
  render (runtime := sample.runtime)
    (run [TogglePlay; Tick]
       (loadData (Rejected (Error "Failed to fetch")) initialState))
    = Normal (ErrorView "Failed to fetch").
Proof.
  split; [|split].
  - destruct (render_after_loading (runtime := sample.runtime)
                (Response true 200%N (Normal (JArray sample.routeJson)))
                [TogglePlay; Tick]) as [H _].
    destruct H as (p & shown & Hp & Hrender & Hpoint & Hlocation & Hspeed &
                   Hdistance & Htime).
    + vm_compute. discriminate.
    + split.
      * intros p Hp. vm_compute in Hp. injection Hp as <-. reflexivity.
      * intros _ p Hp. vm_compute in Hp. injection Hp as <-. reflexivity.
    + exists shown. split; [exact Hrender|].
      vm_compute in Hp. injection Hp as <-.
      rewrite Hpoint, Hlocation, Htime.
      assert (Normal (speedText shown) = Normal "66.72") as [= ->]
        by (rewrite <- Hspeed; vm_compute; reflexivity).
      assert (Normal (distanceText shown) = Normal (JString "1.11")) as [= ->]
        by (rewrite <- Hdistance; vm_compute; reflexivity).
      vm_compute. repeat split.
  - destruct (render_after_loading (runtime := sample.runtime)
                (Response true 200%N (Normal (JArray sample.unconvertibleJson)))
                [TogglePlay; Tick]) as (_ & H & _).
    apply H; [vm_compute; discriminate|].
    intros [Hcurr _].
    specialize (Hcurr {| latitude := 0; longitude := 0x1.47ae147ae147bp-7;
                         timestamp := sample.unconvertible |} eq_refl).
    discriminate Hcurr.
  - destruct (render_after_loading (runtime := sample.runtime)
                (Rejected (Error "Failed to fetch")) [TogglePlay; Tick])
      as (_ & _ & H).
    exact (H eq_refl).
Defined.

End RenderingWitnesses.

(** ** The clamp of [progress] *)

Lemma SFcompare_antisym (a b : spec_float) :
  SFcompare b a = option_map CompOpp (SFcompare a b).
Proof.
  destruct a as [sa|sa| |sa ma ea], b as [sb|sb| |sb mb eb];
    try reflexivity;
    try (destruct sa; reflexivity);
    try (destruct sb; reflexivity);
    try (destruct sa, sb; reflexivity).
  destruct sa, sb; try reflexivity; cbn [SFcompare option_map];
    rewrite (Z.compare_antisym ea eb);
    destruct (ea ?= eb) eqn:He; cbn [CompOpp]; try reflexivity;
    change (Pos.compare_cont Eq mb ma) with (Pos.compare mb ma);
    change (Pos.compare_cont Eq ma mb) with (Pos.compare ma mb);
    rewrite (Pos.compare_antisym ma mb);
    destruct (ma ?= mb)%positive; reflexivity.
Qed.

Lemma ltb_asym (x y : float) :
  (x <? y)%float = true -> (y <? x)%float = false.
Proof.
  rewrite !FloatAxioms.ltb_spec. unfold SFltb.
  rewrite (SFcompare_antisym (Prim2SF x) (Prim2SF y)).
  destruct (SFcompare (Prim2SF x) (Prim2SF y)) as [[| |]|]; cbn; congruence.
Qed.

Lemma leb_not_ltb (x y : float) :
  (x <=? y)%float = true -> (y <? x)%float = false.
Proof.
  rewrite FloatAxioms.leb_spec, FloatAxioms.ltb_spec. unfold SFleb, SFltb.
  rewrite (SFcompare_antisym (Prim2SF x) (Prim2SF y)).
  destruct (SFcompare (Prim2SF x) (Prim2SF y)) as [[| |]|]; cbn; congruence.
Qed.

Lemma ltb_leb (x y : float) :
  (x <? y)%float = true -> (x <=? y)%float = true.
Proof.
  rewrite FloatAxioms.leb_spec, FloatAxioms.ltb_spec. unfold SFleb, SFltb.
  destruct (SFcompare (Prim2SF x) (Prim2SF y)) as [[| |]|]; congruence.
Qed.

(** [progress] never passes 1, and it is below 1 exactly when
    [elapsedTime / duration] is: the clamp does not move the frame on which
    a transition completes. *)
Lemma Math_min_one (x : float) :
  (1 <? Math_min 1 x)%float = false /\
  (Math_min 1 x <? 1)%float = (x <? 1)%float.
Proof.
  unfold Math_min. change (PrimFloat.is_nan 1) with false. cbn [orb].
  destruct (PrimFloat.is_nan x) eqn:Hnan.
  - split; [reflexivity|].
    apply is_nan_Prim2SF in Hnan.
    rewrite (FloatAxioms.ltb_spec x), Hnan. reflexivity.
  - destruct (1 <? x)%float eqn:Hgt.
    + split; [reflexivity|]. rewrite (ltb_asym _ _ Hgt). reflexivity.
    + destruct (x <? 1)%float eqn:Hlt.
      * split; [exact Hgt | exact Hlt].
      * change (PrimFloat.get_sign 1) with false. cbn iota.
        split; [exact Hgt | exact Hlt].
Qed.

(** And it has reached 1 exactly when [elapsedTime / duration] has. *)
Lemma Math_min_one_reached (x : float) :
  (1 <=? Math_min 1 x)%float = (1 <=? x)%float.
Proof.
  unfold Math_min. change (PrimFloat.is_nan 1) with false. cbn [orb].
  destruct (PrimFloat.is_nan x) eqn:Hnan.
  - apply is_nan_Prim2SF in Hnan.
    rewrite !FloatAxioms.leb_spec, Hnan. reflexivity.
  - destruct (1 <? x)%float eqn:Hgt.
    + rewrite (ltb_leb _ _ Hgt). reflexivity.
    + destruct (x <? 1)%float; [reflexivity|].
      change (PrimFloat.get_sign 1) with false. reflexivity.
Qed.

(** ** AnimatedMarker *)

Section Marker.
Import AnimatedMarker.

Lemma progress_below_one (a : Animation) (currentTime : float) :
  (progress a currentTime <? 1)%float = (rawProgress a currentTime <? 1)%float.
Proof. unfold progress, rawProgress. apply Math_min_one. Qed.

(** X13: the clamp of [progress]: it never passes 1, and it is below 1 exactly
    when [elapsedTime / duration] is, so the clamp does not move the frame
    on which a transition completes. *)
Theorem progress_clamped (a : Animation) (currentTime : float) :
  (1 <? progress a currentTime)%float = false /\
  (progress a currentTime <? 1)%float = (rawProgress a currentTime <? 1)%float.
Proof. unfold progress, rawProgress. apply Math_min_one. Qed.

(** A progress that has reached 1 is 1. *)
Lemma progress_one (a : Animation) (currentTime : float) :
  (1 <=? progress a currentTime)%float = true -> progress a currentTime = 1%float.
Proof.
  intros H. apply leb_one_not_ltb; [exact H|].
  unfold progress. apply Math_min_one.
Qed.

Lemma progress_reached (a : Animation) (currentTime : float) :
  (1 <=? progress a currentTime)%float = (1 <=? rawProgress a currentTime)%float.
Proof. unfold progress, rawProgress. apply Math_min_one_reached. Qed.

Lemma L_latLng_valid (p : position) :
  isValid p = true -> L_latLng p = Returns (LatLng_of p).
Proof. intros H. unfold L_latLng. rewrite H. reflexivity. Qed.

Lemma L_latLng_invalid (p : position) :
  isValid p = false -> L_latLng p = Fails (InvalidLatLng p.1 p.2).
Proof. intros H. unfold L_latLng. rewrite H. reflexivity. Qed.

(** Between two finite locations, the interpolation at [progress = 1] is a
    location Leaflet accepts. *)
Lemma interpolated_at_one_valid (a : Animation) (currentTime : float) :
  progress a currentTime = 1%float ->
  isFiniteLatLng (startLatLng a) = true ->
  isFiniteLatLng (endLatLng a) = true ->
  isValid (interpolated a currentTime) = true.
Proof.
  intros Hone Hstart Hend.
  apply andb_true_iff in Hstart as [Hs1 Hs2].
  apply andb_true_iff in Hend as [He1 He2].
  unfold isValid, interpolated. cbn zeta. rewrite Hone. cbn [fst snd].
  rewrite !add_finite_not_nan; try assumption; try reflexivity;
    apply mul_one_not_nan, sub_finite_not_nan; assumption.
Qed.

(** The two outcomes of a call of [animate] that finds the transition
    complete. *)
Lemma animate_complete (a : Animation) (currentTime : float) (c : Component) :
  (progress a currentTime <? 1)%float = false ->
  isValid (interpolated a currentTime) = true ->
  animate a currentTime c =
    Returns (set_lastPosition (target a)
               (setLatLng (endLatLng a)
                  (setLatLng (LatLng_of (interpolated a currentTime)) c))).
Proof.
  intros Hdone Hvalid. unfold animate, setLatLngArray.
  rewrite (L_latLng_valid _ Hvalid). cbn zeta. rewrite Hdone. reflexivity.
Qed.

(** C7: whenever a call of [animate] finds the transition complete
    (progress has reached 1), between two locations with finite
    coordinates, the call returns and the marker's final location is the
    exact target [endLatLng], not the interpolated value set just before;
    [lastPosition] becomes the target position and no further frame is
    requested. *)
Theorem animate_settles_on_target (a : Animation) (currentTime : float)
    (c : Component) :
  (1 <=? progress a currentTime)%float = true ->
  isFiniteLatLng (startLatLng a) = true ->
  isFiniteLatLng (endLatLng a) = true ->
  exists c',
    animate a currentTime c = Returns c' /\
    marker c' = Some (endLatLng a) /\
    lastPosition c' = Some (target a) /\
    requests c' = requests c /\
    frameRef c' = frameRef c.
Proof.
  intros Hreached Hstart Hend.
  pose proof (progress_one a currentTime Hreached) as Hone.
  pose proof (interpolated_at_one_valid a currentTime Hone Hstart Hend) as Hvalid.
  eexists. split.
  - apply animate_complete; [|exact Hvalid].
    apply leb_not_ltb, Hreached.
  - repeat split.
Qed.

(** Before completion the marker is at the interpolated location and the
    callback is requested again. *)
Lemma animate_in_flight (a : Animation) (currentTime : float) (c : Component) :
  (progress a currentTime <? 1)%float = true ->
  isValid (interpolated a currentTime) = true ->
  animate a currentTime c =
    Returns (requestFrame a (setLatLng (LatLng_of (interpolated a currentTime)) c)).
Proof.
  intros Hearly Hvalid. unfold animate, setLatLngArray.
  rewrite (L_latLng_valid _ Hvalid). cbn zeta. rewrite Hearly. reflexivity.
Qed.

(** An interpolation with a coordinate that is NaN: the call throws and
    nothing has changed. *)
Lemma animate_invalid (a : Animation) (currentTime : float) (c : Component) :
  isValid (interpolated a currentTime) = false ->
  animate a currentTime c =
    Fails (InvalidLatLng (interpolated a currentTime).1 (interpolated a currentTime).2).
Proof.
  intros Hinvalid. unfold animate, setLatLngArray.
  rewrite (L_latLng_invalid _ Hinvalid). reflexivity.
Qed.

End Marker.

Section MarkerWitnesses.
Import AnimatedMarker.

(** The sample transition at its end: the interpolation has drifted, the
    marker is on the target. *)
Lemma animate_settles_on_target_witness :
  (1 <=? progress sample.drifting 2000)%float = true /\
  LatLng_of (interpolated sample.drifting 2000) <> endLatLng sample.drifting /\
  exists c',
    animate sample.drifting 2000 sample.inTransit = Returns c' /\
    marker c' = Some (endLatLng sample.drifting).
Proof.
  assert ((1 <=? progress sample.drifting 2000)%float = true) as H
    by (vm_compute; reflexivity).
  split; [exact H|]. split.
  - intros E.
    apply (f_equal (fun l => (lat l =? 0x1.999999999999ap-4)%float)) in E.
    vm_compute in E. discriminate E.
  - destruct (animate_settles_on_target sample.drifting 2000 sample.inTransit H)
      as (c' & Hc' & Hmarker & _); [reflexivity | reflexivity |].
    exists c'. split; [exact Hc' | exact Hmarker].
Defined.

End MarkerWitnesses.

(** ** AnimatedMarker: the effect *)

Section MarkerEffect.
Import AnimatedMarker.

(** With a last position, the effect animates: it leaves the marker where
    it is and requests a frame from there to the target. *)
Lemma effect_animates (pos last : position) (m : LatLng) (duration now : float)
    (c : Component) :
  isValid pos = true -> marker c = Some m -> lastPosition c = Some last ->
  effect (Some pos) duration now c =
    Returns (set_hasCleanup true
               (panTo (LatLng_of pos)
                  (requestFrame
                     {| startLatLng := m; endLatLng := LatLng_of pos;
                        startTime := now; target := pos; duration := duration |}
                     (cancelFrame c)))).
Proof.
  intros Hvalid Hm Hl. unfold effect.
  rewrite Hm, (L_latLng_valid _ Hvalid), Hl. reflexivity.
Qed.

(** C8 does not hold of the code: after mounting with a position, the
    first run of the effect does not jump.  [useRef(position)] has seeded
    [lastPosition] with that position, so the test for a first position
    fails and the run requests an animation frame, from the marker's
    location to the target, and pans the map; the marker is not moved by
    the run. *)
Theorem first_effect_animates (pos : position) (duration now : float) :
  isValid pos = true ->
  exists c0 c,
    mount (Some pos) = Returns c0 /\
    lastPosition c0 = Some pos /\
    effect (Some pos) duration now c0 = Returns c /\
    marker c0 = Some (LatLng_of pos) /\
    marker c = marker c0 /\
    frameRef c = Some 1%nat /\
    requests c =
      [(1%nat, {| startLatLng := LatLng_of pos; endLatLng := LatLng_of pos;
                  startTime := now; target := pos; duration := duration |})] /\
    panned c = Some (LatLng_of pos).
Proof.
  intros Hvalid. unfold mount, Marker_create.
  rewrite (L_latLng_valid _ Hvalid).
  eexists. eexists. split; [reflexivity|]. split; [reflexivity|].
  split; [apply (effect_animates pos pos (LatLng_of pos)); [exact Hvalid | reflexivity..]|].
  repeat split.
Qed.

(** The branch for a first position: with no last position the effect
    sets the marker on the target and requests no frame. *)
Lemma effect_jumps_without_last_position pos m duration now c :
  isValid pos = true -> marker c = Some m -> lastPosition c = None ->
  exists c',
    effect (Some pos) duration now c = Returns c' /\
    marker c' = Some (LatLng_of pos) /\
    lastPosition c' = Some pos /\
    requests c' = requests c.
Proof.
  intros Hvalid Hm Hl. unfold effect.
  rewrite Hm, (L_latLng_valid _ Hvalid), Hl. eexists. repeat split.
Qed.

(** *** What every mounted component keeps *)

Lemma cancelFrame_fields c :
  rendered (cancelFrame c) = rendered c /\
  marker (cancelFrame c) = marker c /\
  lastPosition (cancelFrame c) = lastPosition c /\
  nextId (cancelFrame c) = nextId c /\
  frameRef (cancelFrame c) = frameRef c /\
  panned (cancelFrame c) = panned c.
Proof.
  unfold cancelFrame.
  destruct (frameRef c) eqn:Hframe; cbn; rewrite ?Hframe; repeat split.
Qed.

(** The cleanup leaves no frame requested. *)
Lemma cleanup_requests c : onePending c -> requests (cleanup c) = [].
Proof.
  unfold onePending, cleanup, cancelFrame. intros Hone.
  destruct (requests c) as [|[id a] [|r rest]] eqn:Hreq; [| |contradiction].
  - destruct (hasCleanup c); [|exact Hreq].
    destruct (frameRef c); cbn; rewrite ?Hreq; reflexivity.
  - destruct Hone as [Hid ->]. rewrite Hid. cbn. rewrite ?Hreq. cbn.
    destruct (decide (id <> id)) as [Hne|_]; [contradiction | reflexivity].
Qed.

Lemma cleanup_fields c :
  rendered (cleanup c) = rendered c /\
  marker (cleanup c) = marker c /\
  lastPosition (cleanup c) = lastPosition c /\
  nextId (cleanup c) = nextId c /\
  panned (cleanup c) = panned c.
Proof.
  unfold cleanup. destruct (hasCleanup c); [|repeat split].
  destruct (cancelFrame_fields c) as (H1 & H2 & H3 & H4 & _ & H6).
  repeat split; assumption.
Qed.

(** The effect, run on a component with nothing requested. *)
Lemma effect_mountedWell pos duration now c :
  isValid pos = true ->
  is_Some (marker c) -> is_Some (lastPosition c) -> rendered c = Some pos ->
  requests c = [] ->
  exists c',
    effect (Some pos) duration now c = Returns c' /\ mountedWell c' /\
    marker c' = marker c /\
    requests c' =
      [(nextId c,
        {| startLatLng := default (LatLng_of pos) (marker c);
           endLatLng := LatLng_of pos; startTime := now; target := pos;
           duration := duration |})] /\
    frameRef c' = Some (nextId c) /\
    panned c' = Some (LatLng_of pos) /\
    nextId c' = S (nextId c).
Proof.
  intros Hvalid [m Hm] [last Hl] Hr Hreq.
  rewrite (effect_animates pos last m duration now c Hvalid Hm Hl).
  destruct (cancelFrame_fields c) as (H1 & H2 & H3 & H4 & H5 & H6).
  assert (requests (cancelFrame c) = []) as Hreq'.
  { unfold cancelFrame. destruct (frameRef c); cbn; rewrite ?Hreq; reflexivity. }
  eexists. split; [reflexivity|].
  unfold mountedWell, onePending. cbn.
  rewrite H1, H2, H3, H4, Hreq', Hm, Hl, Hr. cbn.
  repeat split; eauto.
Qed.

Lemma mounted_mountedWell pos duration now :
  isValid pos = true ->
  exists c, mounted (Some pos) duration now = Returns c /\ mountedWell c /\
            marker c = Some (LatLng_of pos).
Proof.
  intros Hvalid. unfold mounted, mount, Marker_create.
  rewrite (L_latLng_valid _ Hvalid).
  edestruct (effect_mountedWell pos duration now) as (c & Hc & Hwell & Hm & _);
    [exact Hvalid | | | | | exists c; split; [exact Hc | split; [exact Hwell | exact Hm]]];
    cbn; eauto.
Qed.

(** A mount that returns was given a position that Leaflet accepts. *)
Lemma mount_returns position c :
  mount position = Returns c ->
  exists pos, position = Some pos /\ isValid pos = true.
Proof.
  unfold mount, Marker_create, L_latLng.
  destruct position as [pos|]; [|discriminate].
  destruct (isValid pos) eqn:Hvalid; [eauto | discriminate].
Qed.

Lemma update_mountedWell pos duration now c :
  isValid pos = true -> mountedWell c ->
  exists c',
    update (Some pos) duration now c = Returns c' /\ mountedWell c' /\
    marker c' = Some (LatLng_of pos) /\
    requests c' =
      [(nextId c,
        {| startLatLng := LatLng_of pos; endLatLng := LatLng_of pos;
           startTime := now; target := pos; duration := duration |})] /\
    frameRef c' = Some (nextId c) /\
    panned c' = Some (LatLng_of pos).
Proof.
  intros Hvalid (Hm & Hl & _ & Hone).
  destruct (cleanup_fields c) as (H1 & H2 & H3 & H4 & H5).
  pose proof (cleanup_requests c Hone) as Hreq.
  unfold update, Marker_update, setLatLngArray.
  rewrite (L_latLng_valid _ Hvalid).
  edestruct (effect_mountedWell pos duration now
               (setLatLng (LatLng_of pos) (set_rendered (Some pos) (cleanup c))))
    as (c' & Hc' & Hwell & Hm' & Hreq' & Hf & Hp & _);
    [exact Hvalid | cbn; eauto | cbn; rewrite H3; exact Hl | reflexivity
    | exact Hreq |].
  exists c'. split; [exact Hc'|]. split; [exact Hwell|].
  cbn in Hm', Hreq', Hf. rewrite H4 in Hreq', Hf.
  repeat split; assumption.
Qed.

Lemma rerun_mountedWell duration now c :
  mountedWell c ->
  exists c', rerun duration now c = Returns c' /\ mountedWell c' /\
             marker c' = marker c.
Proof.
  intros (Hm & Hl & (pos & Hr & Hvalid) & Hone).
  destruct (cleanup_fields c) as (H1 & H2 & H3 & H4 & H5).
  pose proof (cleanup_requests c Hone) as Hreq.
  unfold rerun. rewrite Hr.
  edestruct (effect_mountedWell pos duration now (cleanup c))
    as (c' & Hc' & Hwell & Hm' & _);
    [exact Hvalid | rewrite H2; exact Hm | rewrite H3; exact Hl | congruence
    | exact Hreq |].
  exists c'. split; [exact Hc'|]. split; [exact Hwell | congruence].
Qed.

(** What one requested callback leaves, run at a frame. *)
Lemma frame_one a t id c :
  requests c = [(id, a)] ->
  frame t c =
    match animate a t {| rendered := rendered c; marker := marker c;
                         lastPosition := lastPosition c; frameRef := frameRef c;
                         requests := []; nextId := nextId c; panned := panned c;
                         hasCleanup := hasCleanup c |} with
    | Returns c' => c'
    | Fails _ => {| rendered := rendered c; marker := marker c;
                    lastPosition := lastPosition c; frameRef := frameRef c;
                    requests := []; nextId := nextId c; panned := panned c;
                    hasCleanup := hasCleanup c |}
    end.
Proof. intros Hreq. unfold frame. rewrite Hreq. reflexivity. Qed.

Lemma frame_mountedWell t c : mountedWell c -> mountedWell (frame t c).
Proof.
  intros (Hm & Hl & Hr & Hone). unfold mountedWell, onePending in *.
  destruct (requests c) as [|[id a] [|r rest]] eqn:Hreq; [| |contradiction].
  - unfold frame. rewrite Hreq. cbn. repeat split; assumption.
  - rewrite (frame_one a t id c Hreq).
    destruct Hone as [_ Hclean].
    unfold animate, setLatLngArray.
    destruct (L_latLng (interpolated a t)) as [l|e]; cbn zeta;
      [|cbn; repeat split; assumption].
    destruct (_ <? _)%float; cbn; repeat split; eauto.
Qed.

Lemma act_mountedWell c a c' :
  mountedWell c -> act c a = Returns c' -> mountedWell c'.
Proof.
  intros Hwell. destruct a as [[pos|] duration now|duration now|t]; cbn [act].
  - destruct (isValid pos) eqn:Hvalid.
    + destruct (update_mountedWell pos duration now c Hvalid Hwell)
        as (c1 & -> & Hwell1 & _). intros [= <-]. exact Hwell1.
    + unfold update, Marker_update, setLatLngArray.
      rewrite (L_latLng_invalid _ Hvalid). discriminate.
  - discriminate.
  - destruct (rerun_mountedWell duration now c Hwell) as (c1 & -> & Hwell1 & _).
    intros [= <-]. exact Hwell1.
  - intros [= <-]. apply frame_mountedWell, Hwell.
Qed.

Lemma run_mountedWell actions : forall c c',
  mountedWell c -> run actions c = Returns c' -> mountedWell c'.
Proof.
  induction actions as [|a actions IH]; intros c c' Hwell; cbn [run].
  - intros [= <-]. exact Hwell.
  - destruct (act c a) as [c1|e] eqn:Hact; [|discriminate].
    apply IH. exact (act_mountedWell c a c1 Hwell Hact).
Qed.

Lemma run_accepts actions : forall c,
  mountedWell c -> forallb accepts actions = true ->
  exists c', run actions c = Returns c'.
Proof.
  induction actions as [|a actions IH]; intros c Hwell Hall; cbn [run].
  - eauto.
  - cbn [forallb] in Hall. apply andb_true_iff in Hall as [Ha Hall].
    assert (exists c1, act c a = Returns c1) as [c1 Hact].
    { destruct a as [[pos|] duration now|duration now|t]; cbn [act accepts] in *.
      - destruct (update_mountedWell pos duration now c Ha Hwell) as (c1 & -> & _).
        eauto.
      - discriminate.
      - destruct (rerun_mountedWell duration now c Hwell) as (c1 & -> & _). eauto.
      - eauto. }
    rewrite Hact. apply IH; [|exact Hall].
    exact (act_mountedWell c a c1 Hwell Hact).
Qed.

(** The whole life of a component that has not thrown. *)
Lemma life_mountedWell position duration now actions c :
  life position duration now actions = Returns c -> mountedWell c.
Proof.
  unfold life. destruct (mounted position duration now) as [c0|e] eqn:Hmounted;
    [|discriminate].
  apply run_mountedWell.
  unfold mounted in Hmounted.
  destruct (mount position) as [c00|e] eqn:Hmount; [|discriminate].
  destruct (mount_returns position c00 Hmount) as (pos & -> & Hvalid).
  destruct (mounted_mountedWell pos duration now Hvalid) as (c1 & Hc1 & Hwell & _).
  unfold mounted in Hc1. rewrite Hmount in Hc1. congruence.
Qed.

(** Once mounted, the component never takes the branch for a first
    position: [lastPosition] is never empty. *)
Lemma mounted_never_jumps position duration now actions c :
  life position duration now actions = Returns c -> is_Some (lastPosition c).
Proof. intros H. apply life_mountedWell in H. apply H. Qed.

(** X14: no queueing and no leak: however positions change and frames run, at
    most one animation-frame callback is requested at any time, and
    [frameRef] holds its id, so the next cleanup cancels it.  This holds
    as long as Leaflet has not thrown, and it does not throw when every
    position given is one it accepts. *)
Theorem at_most_one_frame_requested (position : option position)
    (duration now : float) (actions : list action) :
  (forall c, life position duration now actions = Returns c ->
     (length (requests c) <= 1)%nat /\
     (forall id a, (id, a) ∈ requests c ->
        frameRef c = Some id /\ hasCleanup c = true)) /\
  ((exists pos, position = Some pos /\ isValid pos = true) ->
   forallb accepts actions = true ->
   exists c, life position duration now actions = Returns c).
Proof.
  split.
  - intros c Hlife. apply life_mountedWell in Hlife as (_ & _ & _ & Hone).
    unfold onePending in Hone.
    destruct (requests c) as [|[id a] [|r rest]]; [| |contradiction].
    + split; [cbn; lia|]. intros id a H. inversion H.
    + split; [cbn; lia|]. intros id' a' H.
      apply list_elem_of_singleton in H. injection H as -> ->. exact Hone.
  - intros (pos & -> & Hvalid) Hall. unfold life.
    destruct (mounted_mountedWell pos duration now Hvalid) as (c0 & -> & Hwell & _).
    apply run_accepts; assumption.
Qed.

End MarkerEffect.

(** ** AnimatedMarker: a change of position *)

Section MarkerMoves.
Import AnimatedMarker.

Lemma eqb_refl_number (x : float) :
  PrimFloat.is_nan x = false -> (x =? x)%float = true.
Proof.
  intros H. rewrite FloatAxioms.eqb_spec.
  apply SFeqb_refl, not_nan_Prim2SF, H.
Qed.

Lemma sameLatLng_refl (pos : position) :
  isValid pos = true -> sameLatLng (LatLng_of pos) (LatLng_of pos) = true.
Proof.
  unfold isValid, sameLatLng. intros H.
  apply negb_true_iff, orb_false_iff in H as [H1 H2]. cbn.
  rewrite !eqb_refl_number by assumption. reflexivity.
Qed.

(** Whatever it interpolates, it interpolates to where it stands. *)
Lemma interpolated_onTheSpot a l t :
  onTheSpot a l -> isValid (interpolated a t) = true ->
  sameLatLng (LatLng_of (interpolated a t)) l = true.
Proof.
  intros [Hs He] Hvalid. unfold isValid, interpolated in Hvalid.
  cbn zeta in Hvalid. cbn [fst snd] in Hvalid.
  apply negb_true_iff, orb_false_iff in Hvalid as [H1 H2].
  unfold sameLatLng, interpolated, LatLng_of. cbn [lat lng fst snd].
  rewrite Hs, He in *.
  destruct (interpolation_with_itself (lat l) (progress a t)) as [H | ->];
    [congruence|].
  destruct (interpolation_with_itself (lng l) (progress a t)) as [H | ->];
    [congruence|].
  reflexivity.
Qed.

(** A marker at [l], with nothing requested but an animation on the spot,
    is there after any frame. *)
Lemma frame_onTheSpot (l : LatLng) (t : float) (c : Component) :
  sameLatLng l l = true ->
  (exists m, marker c = Some m /\ sameLatLng m l = true) ->
  (requests c = [] \/ exists id a, requests c = [(id, a)] /\ onTheSpot a l) ->
  (exists m, marker (frame t c) = Some m /\ sameLatLng m l = true) /\
  (requests (frame t c) = [] \/
   exists id a, requests (frame t c) = [(id, a)] /\ onTheSpot a l).
Proof.
  intros Hl Hm [Hreq|(id & a & Hreq & Hspot)].
  - unfold frame. rewrite Hreq. cbn. split; [exact Hm | left; reflexivity].
  - rewrite (frame_one a t id c Hreq).
    destruct (isValid (interpolated a t)) eqn:Hvalid.
    + pose proof (interpolated_onTheSpot a l t Hspot Hvalid) as Hsame.
      destruct (progress a t <? 1)%float eqn:Hearly.
      * rewrite (animate_in_flight a t _ Hearly Hvalid). cbn.
        split; [eauto | right; eauto].
      * rewrite (animate_complete a t _ Hearly Hvalid). cbn.
        split; [|left; reflexivity].
        exists (endLatLng a). split; [reflexivity|].
        destruct Hspot as [_ ->]. exact Hl.
    + rewrite (animate_invalid a t _ Hvalid). cbn.
      split; [exact Hm | left; reflexivity].
Qed.

Lemma frames_onTheSpot (l : LatLng) (times : list float) : forall c : Component,
  sameLatLng l l = true ->
  (exists m, marker c = Some m /\ sameLatLng m l = true) ->
  (requests c = [] \/ exists id a, requests c = [(id, a)] /\ onTheSpot a l) ->
  exists m, marker (frames times c) = Some m /\ sameLatLng m l = true.
Proof.
  induction times as [|t times IH]; intros c Hl Hm Hreq.
  - exact Hm.
  - destruct (frame_onTheSpot l t c Hl Hm Hreq) as [Hm' Hreq'].
    exact (IH (frame t c) Hl Hm' Hreq').
Qed.

(** X15: a change of position moves the marker at once.  [Marker], rendered
    with the new position, sets it on the Leaflet marker before the effect
    reads the marker's location; so the run cancels what was requested and
    requests one animation that starts and ends on the target, and after
    any frames, at any times, the marker is still at the target's
    coordinates. *)
Theorem update_moves_marker_at_once (c : Component) (pos : position)
    (duration now : float) (times : list float) :
  mountedWell c -> isValid pos = true ->
  exists c',
    update (Some pos) duration now c = Returns c' /\
    marker c' = Some (LatLng_of pos) /\
    requests c' =
      [(nextId c,
        {| startLatLng := LatLng_of pos; endLatLng := LatLng_of pos;
           startTime := now; target := pos; duration := duration |})] /\
    panned c' = Some (LatLng_of pos) /\
    exists l, marker (frames times c') = Some l /\
              sameLatLng l (LatLng_of pos) = true.
Proof.
  intros Hwell Hvalid.
  destruct (update_mountedWell pos duration now c Hvalid Hwell)
    as (c' & Hc' & _ & Hm & Hreq & _ & Hp).
  exists c'. split; [exact Hc'|]. split; [exact Hm|]. split; [exact Hreq|].
  split; [exact Hp|].
  pose proof (sameLatLng_refl pos Hvalid) as Hl.
  apply frames_onTheSpot; [exact Hl | eauto |].
  right. eexists. eexists. split; [exact Hreq | split; reflexivity].
Qed.

(** *** A transition between two locations *)

Lemma frame_in_flight a t id c :
  requests c = [(id, a)] ->
  (rawProgress a t <? 1)%float = true ->
  isValid (interpolated a t) = true ->
  requests (frame t c) = [(nextId c, a)] /\
  marker (frame t c) = Some (LatLng_of (interpolated a t)) /\
  lastPosition (frame t c) = lastPosition c.
Proof.
  intros Hreq Hearly Hvalid. rewrite (frame_one a t id c Hreq).
  rewrite <- progress_below_one in Hearly.
  rewrite (animate_in_flight a t _ Hearly Hvalid). repeat split.
Qed.

Lemma frame_settles a t id c :
  requests c = [(id, a)] ->
  (1 <=? rawProgress a t)%float = true ->
  isFiniteLatLng (startLatLng a) = true ->
  isFiniteLatLng (endLatLng a) = true ->
  requests (frame t c) = [] /\
  marker (frame t c) = Some (endLatLng a) /\
  lastPosition (frame t c) = Some (target a).
Proof.
  intros Hreq Hreached Hstart Hend. rewrite (frame_one a t id c Hreq).
  rewrite <- progress_reached in Hreached.
  pose proof (progress_one a t Hreached) as Hone.
  rewrite (animate_complete a t _ (leb_not_ltb _ _ Hreached)
             (interpolated_at_one_valid a t Hone Hstart Hend)).
  repeat split.
Qed.

Lemma frames_in_flight a (times : list float) : forall (c : Component) (id : nat),
  requests c = [(id, a)] ->
  Forall (fun t => (rawProgress a t <? 1)%float = true /\
                   isValid (interpolated a t) = true) times ->
  (exists id', requests (frames times c) = [(id', a)]) /\
  marker (frames times c) =
    match last times with
    | Some t => Some (LatLng_of (interpolated a t))
    | None => marker c
    end /\
  lastPosition (frames times c) = lastPosition c.
Proof.
  induction times as [|t times IH]; intros c id Hreq Hearly.
  - split; [eauto | split; reflexivity].
  - apply Forall_cons in Hearly as [[Ht Hvalid] Hearly].
    destruct (frame_in_flight a t id c Hreq Ht Hvalid) as (Hreq' & Hm & Hl).
    destruct (IH (frame t c) (nextId c) Hreq' Hearly) as (Hreq'' & Hm' & Hl').
    change (frames (t :: times) c) with (frames times (frame t c)).
    split; [exact Hreq''|]. split; [|congruence].
    rewrite Hm', last_cons. destruct (last times); [reflexivity | exact Hm].
Qed.

(** X16: a transition run by the browser, between two locations with finite
    coordinates: with one animation requested, frames at times where
    [elapsedTime / duration] is below 1 and the interpolation is a location
    keep it in flight, the marker on the interpolation of the last frame
    and the callback requested again; the first frame at a time where
    [elapsedTime / duration] has reached 1 leaves the marker exactly on the
    target, records the target as the last position, and leaves no frame
    requested. *)
Theorem transition_settles_on_first_late_frame (a : Animation)
    (times : list float) (final : float) (c : Component) (id : nat) :
  requests c = [(id, a)] ->
  Forall (fun t => (rawProgress a t <? 1)%float = true /\
                   isValid (interpolated a t) = true) times ->
  (1 <=? rawProgress a final)%float = true ->
  isFiniteLatLng (startLatLng a) = true ->
  isFiniteLatLng (endLatLng a) = true ->
  let early := frames times c in
  (exists id', requests early = [(id', a)]) /\
  marker early =
    match last times with
    | Some t => Some (LatLng_of (interpolated a t))
    | None => marker c
    end /\
  lastPosition early = lastPosition c /\
  marker (frame final early) = Some (endLatLng a) /\
  lastPosition (frame final early) = Some (target a) /\
  requests (frame final early) = [].
Proof.
  intros Hreq Hearly Hfinal Hstart Hend. cbn zeta.
  destruct (frames_in_flight a times c id Hreq Hearly) as ([id' Hreq'] & Hm & Hl).
  destruct (frame_settles a final id' _ Hreq' Hfinal Hstart Hend)
    as (H1 & H2 & H3).
  repeat split; eauto.
Qed.

End MarkerMoves.

Section MarkerMovesWitnesses.
Import AnimatedMarker.

(** The component mounted at 0.7 degrees, and its first effect. *)
Lemma first_effect_animates_witness :
  isValid (0x1.6666666666666p-1, 0x1.6666666666666p-1)%float = true /\
  mounted (Some (0x1.6666666666666p-1, 0x1.6666666666666p-1)%float) 2000 0
    = Returns sample.atRest /\
  length (requests sample.atRest) = 1%nat.
Proof.
  split; [reflexivity|]. split; [|reflexivity].
  destruct (first_effect_animates
              (0x1.6666666666666p-1, 0x1.6666666666666p-1)%float 2000 0 eq_refl)
    as (c0 & c & Hmount & _ & Heffect & _).
  transitivity (Returns (A := Component) c).
  - rewrite <- Heffect. unfold mounted.
    destruct (mount _) as [c1|e]; [|discriminate Hmount].
    injection Hmount as ->. reflexivity.
  - injection Hmount as <-. injection Heffect as <-. reflexivity.
Defined.

(** The sample transition, sampled at 500 ms, 1000 ms and 2000 ms. *)
Lemma transition_settles_on_first_late_frame_witness :
  marker (frames [500; 1000]%float sample.inTransit)
    = Some {| lat := 0x1.9999999999999p-2; lng := 0x1.9999999999999p-2 |} /\
  marker (frames [500; 1000; 2000]%float sample.inTransit)
    = Some (endLatLng sample.drifting).
Proof.
  destruct (transition_settles_on_first_late_frame sample.drifting
              [500; 1000]%float 2000%float sample.inTransit 1%nat eq_refl)
    as (_ & Hearly & _ & Hfinal & _).
  - repeat constructor.
  - reflexivity.
  - reflexivity.
  - reflexivity.
  - split; [exact Hearly | exact Hfinal].
Defined.

(** The component at rest at 0.7 degrees, given the position 0.1 degrees at
    time 0 and run at 500 ms, 1000 ms and 2000 ms. *)
Lemma update_moves_marker_at_once_witness :
  mountedWell sample.atRest /\
  exists c',
    update (Some (target sample.drifting)) 2000 0 sample.atRest = Returns c' /\
    marker c' = Some (endLatLng sample.drifting) /\
    exists l, marker (frames [500; 1000; 2000]%float c') = Some l /\
              sameLatLng l (endLatLng sample.drifting) = true.
Proof.
  assert (mountedWell sample.atRest) as Hwell.
  { unfold mountedWell, onePending. cbn. repeat split; eauto. }
  split; [exact Hwell|].
  destruct (update_moves_marker_at_once sample.atRest (target sample.drifting)
              2000 0 [500; 1000; 2000]%float Hwell eq_refl)
    as (c' & Hc' & Hm & _ & _ & Hframes).
  exists c'. split; [exact Hc'|]. split; [exact Hm | exact Hframes].
Defined.

(** A whole life: mounted at 0.7, given 0.1 at time 0, run at 500 ms and
    at 2000 ms.  The marker is at 0.1 from the update on. *)
Example marker_is_on_target_throughout :
  let p0 := (0x1.6666666666666p-1, 0x1.6666666666666p-1)%float in
  let p1 := (0x1.999999999999ap-4, 0x1.999999999999ap-4)%float in
  (exists c, life (Some p0) 2000 0 [Update (Some p1) 2000 0] = Returns c /\
             marker c = Some (LatLng_of p1) /\ length (requests c) = 1%nat) /\
  (exists c, life (Some p0) 2000 0 [Update (Some p1) 2000 0; Frame 500]
               = Returns c /\
             marker c = Some (LatLng_of p1) /\ length (requests c) = 1%nat) /\
  (exists c, life (Some p0) 2000 0 [Update (Some p1) 2000 0; Frame 500; Frame 2000]
               = Returns c /\
             marker c = Some (LatLng_of p1) /\ requests c = [] /\
             lastPosition c = Some p1) /\
  life (Some p0) 2000 0 [Update (Some (nan, 0)%float) 2000 0]
    = Fails (InvalidLatLng nan 0) /\
  life None 2000 0 [] = Fails NoLatLng.
Proof. vm_compute. repeat split; eexists; repeat split. Qed.

End MarkerMovesWitnesses.

